(** * OEE production dashboard: loader, filter engine, aggregator

    A shallow embedding of [src/dashboard.py].  The script is a linear
    pandas pipeline: load a frame, check its columns, convert the date
    column, filter by machine / shift / date range, and aggregate.

    Conventions of the embedding:
    - a data frame whose rows follow the record layout of the input
      contract is a [list Row]; a column [df['c']] is [col c df];
    - the [date] column holds pandas timestamps (nanoseconds since the
      epoch) as [Z]; calendar days (Python [datetime.date], what
      [st.date_input] returns) are day numbers as [Z];
    - integer columns are [Z]; the rate columns are exact rationals [Q];
    - results of float division live in [num]: rationals extended with
      NaN and the two infinities, because the script divides by sums and
      counts that can be zero.  Rounding of binary floating point is not
      modelled: finite results are exact. *)

From Stdlib Require Import ZArith QArith List String Ascii Bool Lia.
From Stdlib Require Import DecimalString Permutation Sorted OrdersEx.
From Stdlib Require Import RelationClasses Morphisms.
From Stdlib Require Import Qabs Lqa.
Import ListNotations.

Local Open Scope Z_scope.

(** ** Records and tables *)

Record Row : Type := mkRow {
  date : Z;
  machine : string;
  shift : string;
  planned_time_min : Z;
  downtime_min : Z;
  run_time_min : Z;
  availability : Q;
  performance : Q;
  quality : Q;
  oee : Q;
  total_parts : Z;
  good_parts : Z;
  downtime_reason : option string
}.

(** [downtime_reason] is [None] for an empty cell, which [pd.read_csv]
    reads as NaN. *)

Definition DataFrame : Type := list Row.

(** [df['c']]: the column as a series, in row order. *)
Definition col {A : Type} (c : Row -> A) (df : DataFrame) : list A := map c df.

(** ** Timestamps and calendar days *)

Definition ns_per_day : Z := 86400 * 1000000000.

(** [pd.Timestamp(d)] for a [datetime.date] [d]: midnight of that day. *)
Definition Timestamp (d : Z) : Z := d * ns_per_day.

(** The calendar day of a timestamp ([Timestamp.date()]); [st.date_input]
    applies it to the datetime values it is given. *)
Definition to_pydate (t : Z) : Z := t / ns_per_day.

(** A timestamp without a time-of-day part, as the data model has it. *)
Definition is_calendar_date (t : Z) : Prop := t mod ns_per_day = 0.

Definition calendar_dates (df : DataFrame) : Prop :=
  Forall (fun r => is_calendar_date (date r)) df.

(** ** Numbers produced by float division *)

Inductive num : Type :=
| Fin (q : Q)
| PosInf
| NegInf
| NaN.

Definition num_of_Z (z : Z) : num := Fin (inject_Z z).

(** True division.  A zero divisor gives NaN for a zero dividend and an
    infinity of the dividend's sign otherwise (the zero is the positive
    one: it comes from a sum or a count). *)
Definition num_div (a b : num) : num :=
  match a, b with
  | Fin x, Fin y =>
      if Qeq_bool y 0 then
        if Qeq_bool x 0 then NaN
        else if Qle_bool 0 x then PosInf else NegInf
      else Fin (Qred (x / y))
  | Fin _, PosInf | Fin _, NegInf => Fin 0
  | PosInf, Fin y => if Qle_bool 0 y then PosInf else NegInf
  | NegInf, Fin y => if Qle_bool 0 y then NegInf else PosInf
  | _, _ => NaN
  end.

Definition num_mul (a b : num) : num :=
  match a, b with
  | Fin x, Fin y => Fin (Qred (x * y))
  | PosInf, Fin y | Fin y, PosInf =>
      if Qeq_bool y 0 then NaN else if Qle_bool 0 y then PosInf else NegInf
  | NegInf, Fin y | Fin y, NegInf =>
      if Qeq_bool y 0 then NaN else if Qle_bool 0 y then NegInf else PosInf
  | PosInf, PosInf | NegInf, NegInf => PosInf
  | PosInf, NegInf | NegInf, PosInf => NegInf
  | _, _ => NaN
  end.

(** ** Series operations used by the script *)

Module Series.

(** [s.isin(values)] *)
Definition isin (s : list string) (values : list string) : list bool :=
  map (fun x => existsb (String.eqb x) values) s.

(** [s >= v] and [s <= v] *)
Definition ge (s : list Z) (v : Z) : list bool := map (fun x => v <=? x) s.
Definition le (s : list Z) (v : Z) : list bool := map (fun x => x <=? v) s.

(** [a & b] on boolean series over the same index. *)
Definition and_ (a b : list bool) : list bool :=
  map (fun p => fst p && snd p) (combine a b).

(** [df[mask]]: boolean indexing. *)
Definition getitem (df : DataFrame) (mask : list bool) : DataFrame :=
  map fst (filter snd (combine df mask)).

(** [s.unique().tolist()]: distinct values in order of first appearance. *)
Fixpoint unique (s : list string) : list string :=
  match s with
  | [] => []
  | x :: t => x :: filter (fun y => negb (String.eqb x y)) (unique t)
  end.

(** [s.min()] and [s.max()]; [None] stands for NaT on an empty series. *)
Definition min (s : list Z) : option Z :=
  match s with
  | [] => None
  | x :: t => Some (fold_left Z.min t x)
  end.

Definition max (s : list Z) : option Z :=
  match s with
  | [] => None
  | x :: t => Some (fold_left Z.max t x)
  end.

(** [s.sum()] on an integer and on a rate column. *)
Definition sum (s : list Z) : Z := fold_right Z.add 0 s.
Definition sumQ (s : list Q) : Q := fold_right Qplus 0%Q s.

(** [s.mean()]: the sum over the count; NaN on an empty series. *)
Definition mean (s : list Q) : num :=
  num_div (Fin (sumQ s)) (num_of_Z (Z.of_nat (List.length s))).

(** [s.cumsum()] *)
Fixpoint cumsum_from (acc : Z) (s : list Z) : list Z :=
  match s with
  | [] => []
  | x :: t => (acc + x) :: cumsum_from (acc + x) t
  end.

Definition cumsum (s : list Z) : list Z := cumsum_from 0 s.

End Series.

(** ** Sidebar filters and the filter engine (lines 128-164) *)

Module Filter.

Definition all_machines (df : DataFrame) : list string :=
  Series.unique (col machine df).

Definition all_shifts (df : DataFrame) : list string :=
  Series.unique (col shift df).

Definition min_date (df : DataFrame) : option Z := Series.min (col date df).
Definition max_date (df : DataFrame) : option Z := Series.max (col date df).

(** The value of the date-range widget when the user leaves it at its
    default [value=[min_date, max_date]]: both ends as calendar days. *)
Definition date_input_default (df : DataFrame) : option (Z * Z) :=
  match min_date df, max_date df with
  | Some lo, Some hi => Some (to_pydate lo, to_pydate hi)
  | _, _ => None
  end.

Definition filtered_df (df : DataFrame)
    (selected_machines selected_shifts : list string)
    (start_date end_date : Z) : DataFrame :=
  Series.getitem df
    (Series.and_
       (Series.and_
          (Series.and_
             (Series.isin (col machine df) selected_machines)
             (Series.isin (col shift df) selected_shifts))
          (Series.ge (col date df) (Timestamp start_date)))
       (Series.le (col date df) (Timestamp end_date))).

(** The selection predicate in the words of the specification. *)
Definition matches (M S : list string) (start_date end_date : Z) (r : Row) : Prop :=
  In (machine r) M /\ In (shift r) S /\
  Timestamp start_date <= date r <= Timestamp end_date.

(** [selected P df out]: [out] is the order-preserving subsequence of [df]
    made of exactly the records that satisfy [P]. *)
Inductive selected (P : Row -> Prop) : DataFrame -> DataFrame -> Prop :=
| selected_nil : selected P [] []
| selected_keep r df out :
    P r -> selected P df out -> selected P (r :: df) (r :: out)
| selected_drop r df out :
    ~ P r -> selected P df out -> selected P (r :: df) out.

(** The four masks of the script combined into one test of a row. *)
Definition keep (M S : list string) (start_date end_date : Z) (r : Row) : bool :=
  existsb (String.eqb (machine r)) M
  && existsb (String.eqb (shift r)) S
  && (Timestamp start_date <=? date r)
  && (date r <=? Timestamp end_date).

End Filter.

(** ** Aggregator (lines 171-176, 258-262, 302) *)

Module Aggregator.

(** *** Group-by

    [df.groupby(key)] with the pandas defaults: rows whose key is missing
    are dropped, and the groups come in ascending order of the key. *)

Fixpoint insert_key (k : string) (ks : list string) : list string :=
  match ks with
  | [] => [k]
  | h :: t =>
      match String_as_OT.compare k h with
      | Lt => k :: ks
      | Eq => ks
      | Gt => h :: insert_key k t
      end
  end.

Fixpoint group_keys (s : list (option string)) : list string :=
  match s with
  | [] => []
  | Some k :: t => insert_key k (group_keys t)
  | None :: t => group_keys t
  end.

Definition has_key (key : Row -> option string) (k : string) (r : Row) : bool :=
  match key r with
  | Some k' => String.eqb k' k
  | None => false
  end.

Definition groupby (key : Row -> option string) (df : DataFrame)
  : list (string * DataFrame) :=
  map (fun k => (k, filter (has_key key k) df)) (group_keys (col key df)).

(** *** Scalar KPIs *)

Record KPIs : Type := mkKPIs {
  avg_oee : num;
  avg_availability : num;
  avg_performance : num;
  avg_quality : num;
  total_good_parts : Z;
  total_downtime : Z
}.

Definition kpis (filtered_df : DataFrame) : KPIs :=
  {| avg_oee := Series.mean (col oee filtered_df);
     avg_availability := Series.mean (col availability filtered_df);
     avg_performance := Series.mean (col performance filtered_df);
     avg_quality := Series.mean (col quality filtered_df);
     total_good_parts := Series.sum (col good_parts filtered_df);
     total_downtime := Series.sum (col downtime_min filtered_df) |}.

(** *** Rendering of a KPI card value: [f"{x:.1%}"] *)

Definition round_half_even (q : Q) : Z :=
  let n := Qnum q in
  let d := Zpos (Qden q) in
  let f := n / d in
  match 2 * (n mod d) ?= d with
  | Lt => f
  | Gt => f + 1
  | Eq => if Z.even f then f else f + 1
  end.

Definition digits (n : Z) : string := NilZero.string_of_uint (N.to_uint (Z.to_N n)).

Definition format_percent1 (x : num) : string :=
  match x with
  | Fin q =>
      let t := Z.abs (round_half_even (q * 1000)) in
      ((if Qle_bool 0 q then "" else "-")
         ++ digits (t / 10) ++ "." ++ digits (t mod 10) ++ "%")%string
  | PosInf => "inf%"%string
  | NegInf => "-inf%"%string
  | NaN => "nan%"%string
  end.

(** *** Downtime Pareto *)

(** Line 258: the per-reason sum of [downtime_min]. *)
Definition pareto_sums (filtered_df : DataFrame) : list (string * Z) :=
  map (fun g => (fst g, Series.sum (col downtime_min (snd g))))
      (groupby downtime_reason filtered_df).

(** The downtime a row contributes to the groups: rows without a reason
    belong to no group. *)
Definition labelled_downtime (r : Row) : Z :=
  match downtime_reason r with
  | Some _ => downtime_min r
  | None => 0
  end.

(** The sum of the per-group sums over a list of keys. *)
Definition group_total (ks : list string) (df : DataFrame) : Z :=
  Series.sum
    (map (fun k => Series.sum (col downtime_min (filter (has_key downtime_reason k) df))) ks).

(** [sort_values(ascending=False)] is pandas' own: what the script relies
    on is that it returns the entries rearranged in descending order of the
    value.  The order of equal values under the default sort kind is not
    fixed by the library, so the sort is a parameter with this contract. *)
Definition sort_fn : Type := list (string * Z) -> list (string * Z).

Definition descending : string * Z -> string * Z -> Prop :=
  fun a b => snd b <= snd a.

Definition sorts_descending (sort_values : sort_fn) : Prop :=
  forall l, Permutation (sort_values l) l /\ StronglySorted descending (sort_values l).

(** Line 259. *)
Definition pareto (sort_values : sort_fn) (filtered_df : DataFrame)
  : list (string * Z) :=
  sort_values (pareto_sums filtered_df).

(** Line 262: [cumsum() / sum() * 100]. *)
Definition cumulative_pct (pareto : list (string * Z)) : list num :=
  let downtime := map snd pareto in
  map (fun c => num_mul (num_div (num_of_Z c) (num_of_Z (Series.sum downtime)))
                        (Fin 100))
      (Series.cumsum downtime).

(** A sort that meets the contract and keeps equal values in their input
    order: insertion into a descending list. *)
Fixpoint insert_desc (x : string * Z) (l : list (string * Z)) : list (string * Z) :=
  match l with
  | [] => [x]
  | y :: t => if snd y <=? snd x then x :: l else y :: insert_desc x t
  end.

Definition stable_sort_values : sort_fn := fold_right insert_desc [].

(** Position of the first entry for a reason in a Pareto table, and of the
    first row with that reason in the filtered table. *)
Fixpoint position {A : Type} (p : A -> bool) (l : list A) : option nat :=
  match l with
  | [] => None
  | x :: t => if p x then Some O else option_map S (position p t)
  end.

Definition rank (reason : string) (pareto : list (string * Z)) : option nat :=
  position (fun e => String.eqb (fst e) reason) pareto.

Definition first_appearance (reason : string) (filtered_df : DataFrame) : option nat :=
  position (has_key downtime_reason reason) filtered_df.

(** Tie-breaking by first appearance, in the words of the specification:
    of two reasons with equal summed downtime, the one that occurs first in
    the filtered rows comes first in the Pareto table. *)
Definition ties_by_first_appearance (filtered_df : DataFrame)
    (pareto : list (string * Z)) : Prop :=
  forall a b v i j,
    In (a, v) pareto -> In (b, v) pareto ->
    first_appearance a filtered_df = Some i ->
    first_appearance b filtered_df = Some j ->
    (i < j)%nat ->
    exists i' j', rank a pareto = Some i' /\ rank b pareto = Some j' /\ (i' < j')%nat.

(** *** Machine comparison (line 302) *)

Record MachineMeans : Type := mkMachineMeans {
  mm_machine : string;
  mm_oee : num;
  mm_availability : num;
  mm_performance : num;
  mm_quality : num
}.

Definition machine_oee (filtered_df : DataFrame) : list MachineMeans :=
  map (fun g =>
         {| mm_machine := fst g;
            mm_oee := Series.mean (col oee (snd g));
            mm_availability := Series.mean (col availability (snd g));
            mm_performance := Series.mean (col performance (snd g));
            mm_quality := Series.mean (col quality (snd g)) |})
      (groupby (fun r => Some (machine r)) filtered_df).

(** The rows of one machine, and the arithmetic mean in the words of the
    specification: the value [m] with [m * count = sum]. *)
Definition rows_of_machine (m : string) (df : DataFrame) : DataFrame :=
  filter (fun r => String.eqb (machine r) m) df.

Definition is_mean_of (x : num) (s : list Q) : Prop :=
  s <> [] /\
  exists q, x = Fin q /\ (q * inject_Z (Z.of_nat (List.length s)) == Series.sumQ s)%Q.

End Aggregator.

(** ** Loader and the load stage of the script (lines 19-53 and 92-103)

    Parsing and date conversion are pandas' own; the loader is written
    against their interface.  Every library call and every message put on
    the page is logged, so that the order of the steps can be stated. *)

Module Loader.

Inductive PyException : Type :=
| FileNotFoundError
| ValueError (what : string).

Record UploadedFile : Type := mkUploadedFile {
  name : string;
  content : string
}.

Class Pandas (Frame : Type) : Type := {
  (** [df.columns] *)
  columns : Frame -> list string;
  (** [pd.read_csv] and [pd.read_excel] on the bytes of a file *)
  read_csv : string -> PyException + Frame;
  read_excel : string -> PyException + Frame;
  (** [df['date'] = pd.to_datetime(df['date'])] *)
  to_datetime_date : Frame -> PyException + Frame
}.

Inductive Event : Type :=
| ReadCsv
| ReadExcel
| ToDatetime
| StError (message : string)
| SidebarError (message : string)
| SidebarSuccess (message : string).

(** How a piece of the script ends: with a value, with an exception nobody
    caught, or in [st.stop()], after which nothing more is run. *)
Inductive Outcome (A : Type) : Type :=
| Returned (a : A)
| Raised (e : PyException)
| Stopped.

Arguments Returned {A} a.
Arguments Raised {A} e.
Arguments Stopped {A}.

Definition Run (A : Type) : Type := list Event * Outcome A.

Definition ret {A : Type} (a : A) : Run A := ([], Returned a).

Definition bind {A B : Type} (m : Run A) (k : A -> Run B) : Run B :=
  match snd m with
  | Returned a => (fst m ++ fst (k a), snd (k a))
  | Raised e => (fst m, Raised e)
  | Stopped => (fst m, Stopped)
  end.

Definition emit (e : Event) : Run unit := ([e], Returned tt).

Definition stop {A : Type} : Run A := ([], Stopped).

Definition call {A : Type} (e : Event) (r : PyException + A) : Run A :=
  ([e], match r with inl x => Raised x | inr a => Returned a end).

Notation "x <- m ;; k" := (bind m (fun x => k))
  (at level 61, m at next level, right associativity).
Notation "m ;;; k" := (bind m (fun _ => k))
  (at level 61, right associativity).

(** [s.endswith(suffix)] *)
Definition endswith (s suffix : string) : bool :=
  let n := String.length s in
  let m := String.length suffix in
  (m <=? n)%nat && String.eqb (substring (n - m) m s) suffix.

Definition required_columns : list string :=
  [ "date"; "machine"; "shift";
    "planned_time_min"; "downtime_min"; "run_time_min";
    "availability"; "performance"; "quality";
    "oee"; "total_parts"; "good_parts"; "downtime_reason" ]%string.

(** Line 45: [[col for col in required_columns if col not in df.columns]]. *)
Definition missing (df_columns : list string) : list string :=
  filter (fun c => negb (existsb (String.eqb c) df_columns)) required_columns.

Definition unsupported_message : string :=
  "❌ Unsupported file type. Please upload CSV or Excel.".

Definition missing_message (missing : list string) : string :=
  ("❌ Missing columns: " ++ String.concat ", " missing)%string.

Definition loaded_message : string := "✅ File loaded successfully!".

Definition default_missing_message : string :=
  "⚠️ Default dataset not found. Please upload your OEE data file using the uploader in the sidebar.".

Section WithPandas.

Context {Frame : Type} `{Pandas Frame}.

(** Lines 37-53: what [load_uploaded_file] does once the file is parsed. *)
Definition check_and_convert (df : Frame) : Run (option Frame * string) :=
  match missing (columns df) with
  | _ :: _ => ret (None, missing_message (missing (columns df)))
  | [] =>
      df' <- call ToDatetime (to_datetime_date df) ;;
      ret (Some df', loaded_message)
  end.

Definition load_uploaded_file (uploaded_file : UploadedFile)
  : Run (option Frame * string) :=
  if endswith (name uploaded_file) ".csv" then
    df <- call ReadCsv (read_csv (content uploaded_file)) ;;
    check_and_convert df
  else if endswith (name uploaded_file) ".xlsx"
          || endswith (name uploaded_file) ".xls" then
    df <- call ReadExcel (read_excel (content uploaded_file)) ;;
    check_and_convert df
  else ret (None, unsupported_message).

(** [disk] is the content of [oee_data.csv] when the file exists. *)
Definition read_default (disk : option string) : PyException + Frame :=
  match disk with
  | Some c => read_csv c
  | None => inl FileNotFoundError
  end.

Definition load_default_data (disk : option string) : Run Frame :=
  let body :=
    df <- call ReadCsv (read_default disk) ;;
    call ToDatetime (to_datetime_date df) in
  match snd body with
  | Raised FileNotFoundError =>
      (fst body ++ [StError default_missing_message], Stopped)
  | _ => body
  end.

(** Lines 92-103: the table of this run and the caption of its source.
    (The caption with the row count is presentation and is left out.) *)
Definition load_stage (uploaded_file : option UploadedFile) (disk : option string)
  : Run (Frame * string) :=
  match uploaded_file with
  | Some f =>
      r <- load_uploaded_file f ;;
      match r with
      | (None, message) => emit (SidebarError message) ;;; stop
      | (Some df, message) =>
          emit (SidebarSuccess message) ;;;
          ret (df, ("📂 " ++ name f)%string)
      end
  | None =>
      df <- load_default_data disk ;;
      ret (df, "📂 Default Dataset (oee_data.csv)"%string)
  end.

(** The table the dashboard is drawn from at the end of a run, if any. *)
Definition active_table (r : Run (Frame * string)) : option Frame :=
  match snd r with
  | Returned (df, _) => Some df
  | _ => None
  end.

(** The script keeps nothing between two runs: every interaction runs it
    again from the top on the current value of the upload widget. *)
Record Session : Type := mkSession { active : option Frame }.

Definition rerun (s : Session) (uploaded_file : option UploadedFile)
    (disk : option string) : Session :=
  {| active := active_table (load_stage uploaded_file disk) |}.

(** The three load-time errors of an uploaded file. *)
Definition unsupported (f : UploadedFile) : Prop :=
  endswith (name f) ".csv" = false /\
  endswith (name f) ".xlsx" || endswith (name f) ".xls" = false.

Definition parsed (f : UploadedFile) : option (PyException + Frame) :=
  if endswith (name f) ".csv" then Some (read_csv (content f))
  else if endswith (name f) ".xlsx" || endswith (name f) ".xls"
  then Some (read_excel (content f))
  else None.

(** A load-time error: the loader does not hand back a frame. *)
Definition rejected (f : UploadedFile) : Prop :=
  match snd (load_uploaded_file f) with
  | Returned (Some _, _) => False
  | _ => True
  end.

End WithPandas.

(** A small instance to run the loader on concrete files: a frame is its
    header line (and whether its dates parse), the file content is that
    line, and a content starting with [!] stands for dates that do not
    parse. *)
Fixpoint split_commas (s : string) : list string :=
  match s with
  | EmptyString => [EmptyString]
  | String c t =>
      if Ascii.eqb c "," then EmptyString :: split_commas t
      else match split_commas t with
           | h :: r => String c h :: r
           | [] => [String c EmptyString]
           end
  end.

Record Header : Type := mkHeader { header : list string; dates_parse : bool }.

Definition read_header (c : string) : PyException + Header :=
  match c with
  | String "!" t => inr {| header := split_commas t; dates_parse := false |}
  | _ => inr {| header := split_commas c; dates_parse := true |}
  end.

#[export] Instance HeaderPandas : Pandas Header := {
  columns := header;
  read_csv := read_header;
  read_excel := read_header;
  to_datetime_date := fun df =>
    if dates_parse df then inr df else inl (ValueError "Unknown datetime string format")
}.

End Loader.

(** ** Tables of the end-to-end scenarios *)

Module Scenario.

Definition row (d : Z) (m s : string) (down : Z) (reason : option string) (o : Q) : Row :=
  {| date := d; machine := m; shift := s;
     planned_time_min := 480; downtime_min := down; run_time_min := 480 - down;
     availability := 1; performance := 1; quality := o; oee := o;
     total_parts := 100; good_parts := 100; downtime_reason := reason |}.

Definition day (d : Z) : Z := Timestamp d.

(** Scenario 1: two machines, one shift, three dates. *)
Definition two_machines : DataFrame :=
  [ row (day 1) "M1" "A" 0 None (9 # 10); row (day 1) "M2" "A" 0 None (6 # 10);
    row (day 2) "M1" "A" 0 None (8 # 10); row (day 2) "M2" "A" 0 None (5 # 10);
    row (day 3) "M1" "A" 0 None (7 # 10); row (day 3) "M2" "A" 0 None (4 # 10) ].

(** Scenario 2: downtime reasons A:50, B:30, C:20. *)
Definition three_reasons : DataFrame :=
  [ row (day 1) "M1" "A" 20 (Some "C"%string) 1; row (day 1) "M2" "A" 30 (Some "A"%string) 1;
    row (day 2) "M1" "A" 30 (Some "B"%string) 1; row (day 2) "M2" "A" 20 (Some "A"%string) 1 ].

(** Two reasons with equal downtime, in the two possible row orders. *)
Definition tie_B_first : DataFrame :=
  [ row (day 1) "M1" "A" 10 (Some "B"%string) 1; row (day 1) "M2" "A" 10 (Some "A"%string) 1 ].

Definition tie_A_first : DataFrame :=
  [ row (day 1) "M2" "A" 10 (Some "A"%string) 1; row (day 1) "M1" "A" 10 (Some "B"%string) 1 ].

(** A table with a reason but no downtime at all. *)
Definition no_downtime : DataFrame :=
  [ row (day 1) "M1" "A" 0 (Some "Changeover"%string) 1 ].

(** One record on day 5. *)
Definition one_day : DataFrame :=
  [ row (day 5) "M1" "A" 10 (Some "Jam"%string) (9 # 10) ].

(** One record at 08:00 of day 5. *)
Definition intraday : DataFrame :=
  [ row (day 5 + 8 * 3600 * 1000000000) "M1" "A" 10 (Some "Jam"%string) (9 # 10) ].

Definition good_file : Loader.UploadedFile :=
  {| Loader.name := "june.csv";
     Loader.content := "date,machine,shift,planned_time_min,downtime_min,run_time_min,availability,performance,quality,oee,total_parts,good_parts,downtime_reason,operator" |}.

Definition no_quality_file : Loader.UploadedFile :=
  {| Loader.name := "june.xlsx";
     Loader.content := "date,machine,shift,planned_time_min,downtime_min,run_time_min,availability,performance,oee,total_parts,good_parts,downtime_reason" |}.

Definition no_date_file : Loader.UploadedFile :=
  {| Loader.name := "june.csv";
     Loader.content := "!machine,shift,planned_time_min,downtime_min,run_time_min,availability,performance,quality,oee,total_parts,good_parts" |}.

Definition bad_dates_file : Loader.UploadedFile :=
  {| Loader.name := "june.csv";
     Loader.content := "!date,machine,shift,planned_time_min,downtime_min,run_time_min,availability,performance,quality,oee,total_parts,good_parts,downtime_reason" |}.

Definition text_file : Loader.UploadedFile :=
  {| Loader.name := "june.txt"; Loader.content := "date,machine" |}.

(** The frame of [good_file], and a session that is showing it. *)
Definition june : Loader.Header :=
  {| Loader.header := Loader.split_commas (Loader.content good_file);
     Loader.dates_parse := true |}.

Definition showing_june : Loader.Session (Frame := Loader.Header) :=
  {| Loader.active := Some june |}.

End Scenario.

(** ** The other charts and tables (lines 232, 328, 381-388) *)

Module Charts.

(** *** OEE trend (line 232): [groupby('date')['oee'].mean()], the dates
    in ascending order. *)

Fixpoint insert_date (d : Z) (ds : list Z) : list Z :=
  match ds with
  | [] => [d]
  | h :: t =>
      match d ?= h with
      | Lt => d :: ds
      | Eq => ds
      | Gt => h :: insert_date d t
      end
  end.

Definition date_keys (s : list Z) : list Z := fold_right insert_date [] s.

Definition rows_on_date (d : Z) (df : DataFrame) : DataFrame :=
  filter (fun r => date r =? d) df.

Definition groupby_date (df : DataFrame) : list (Z * DataFrame) :=
  map (fun d => (d, rows_on_date d df)) (date_keys (col date df)).

Definition oee_trend (filtered_df : DataFrame) : list (Z * num) :=
  map (fun g => (fst g, Series.mean (col oee (snd g)))) (groupby_date filtered_df).

(** *** Shift comparison (line 328) *)

Record ShiftMeans : Type := mkShiftMeans {
  sm_shift : string;
  sm_oee : num;
  sm_availability : num;
  sm_performance : num;
  sm_quality : num
}.

Definition shift_oee (filtered_df : DataFrame) : list ShiftMeans :=
  map (fun g =>
         {| sm_shift := fst g;
            sm_oee := Series.mean (col oee (snd g));
            sm_availability := Series.mean (col availability (snd g));
            sm_performance := Series.mean (col performance (snd g));
            sm_quality := Series.mean (col quality (snd g)) |})
      (Aggregator.groupby (fun r => Some (shift r)) filtered_df).

Definition rows_of_shift (s : string) (df : DataFrame) : DataFrame :=
  filter (fun r => String.eqb (shift r) s) df.

(** *** Summary table (lines 381-388) *)

(** [.round(3)] on a float: to the nearest thousandth, ties to even.
    Integer columns are left as they are. *)
Definition round3 (x : num) : num :=
  match x with
  | Fin q => Fin (Qred (inject_Z (Aggregator.round_half_even (q * 1000)) / 1000))
  | _ => x
  end.

(** A rounded value next to the exact one: both finite and no more than
    half a thousandth apart. *)
Definition rounds_to_thousandth (exact rounded : num) : Prop :=
  exists q q', exact = Fin q /\ rounded = Fin q' /\ (Qabs (q' - q) <= 1 # 2000)%Q.

Record SummaryRow : Type := mkSummaryRow {
  summary_machine : string;
  Avg_OEE : num;
  Avg_Availability : num;
  Avg_Performance : num;
  Avg_Quality : num;
  Total_Downtime_min : Z;
  Total_Good_Parts : Z
}.

Definition summary_table (filtered_df : DataFrame) : list SummaryRow :=
  map (fun g =>
         {| summary_machine := fst g;
            Avg_OEE := round3 (Series.mean (col oee (snd g)));
            Avg_Availability := round3 (Series.mean (col availability (snd g)));
            Avg_Performance := round3 (Series.mean (col performance (snd g)));
            Avg_Quality := round3 (Series.mean (col quality (snd g)));
            Total_Downtime_min := Series.sum (col downtime_min (snd g));
            Total_Good_Parts := Series.sum (col good_parts (snd g)) |})
      (Aggregator.groupby (fun r => Some (machine r)) filtered_df).

End Charts.

(** ** The sidebar up to the template download (lines 56-117) *)

Module Sidebar.

Import Loader.

Definition UPLOAD_PASSWORD : string := "oee2024".

(** What the sidebar puts on the page or asks of pandas: the events of the
    loader, and the success box of the access expander. *)
Inductive PageEvent : Type :=
| FromLoader (e : Event)
| StSuccess (message : string).

Section WithPandas.

Context {Frame : Type} `{Pandas Frame}.

(** Lines 62-90.  [widget] is the file held by the upload control, which is
    only drawn after the access code.  The template offered inside the
    expander is read under [try] with a bare [except: pass]: whatever the
    read does, the expander goes on.  (The bytes of the template are not
    modelled.) *)
Definition upload_access (entered_password : string) (widget : option UploadedFile)
  : list PageEvent * option UploadedFile :=
  if String.eqb entered_password UPLOAD_PASSWORD then
    ([StSuccess "✅ Access granted"; FromLoader ReadCsv], widget)
  else if negb (String.eqb entered_password "") then
    ([FromLoader (StError "❌ Incorrect access code")], None)
  else ([], None).

(** Lines 107-117: the template read a second time, outside any [try]. *)
Definition template_download (disk : option string) : Run unit :=
  _df <- call ReadCsv (read_default disk) ;; ret tt.

(** The script from the access code to the template button: the events in
    order, and the table and caption the rest of the page is drawn from. *)
Definition sidebar (entered_password : string) (widget : option UploadedFile)
    (disk : option string) : list PageEvent * Outcome (Frame * string) :=
  let gate := upload_access entered_password widget in
  let run :=
    r <- load_stage (snd gate) disk ;;
    template_download disk ;;;
    ret r in
  (fst gate ++ map FromLoader (fst run), snd run).

End WithPandas.

End Sidebar.

(** * Properties *)

(** ** Filter engine *)

Section FilterFacts.

Import Filter.

Lemma existsb_eqb_In (x : string) (l : list string) :
  existsb (String.eqb x) l = true <-> In x l.
Proof.
  rewrite existsb_exists. split.
  - intros [y [Hy He]]. apply String.eqb_eq in He. now subst.
  - intros Hx. exists x. split; [assumption | apply String.eqb_refl].
Qed.

Lemma keep_matches M S s e r :
  keep M S s e r = true <-> matches M S s e r.
Proof.
  unfold keep, matches. rewrite !andb_true_iff, !existsb_eqb_In.
  rewrite !Z.leb_le. tauto.
Qed.

(** Boolean indexing with the conjunction of the four masks is a row-wise
    filter. *)
Lemma filtered_df_filter df M S s e :
  filtered_df df M S s e = filter (keep M S s e) df.
Proof.
  unfold filtered_df, Series.getitem, Series.and_, Series.isin,
    Series.ge, Series.le, col.
  induction df as [| r df IH]; [reflexivity |].
  cbn [map combine filter fst snd]. unfold keep at 1.
  destruct (existsb (String.eqb (machine r)) M
            && existsb (String.eqb (shift r)) S
            && (Timestamp s <=? date r) && (date r <=? Timestamp e));
    cbn [map fst]; now rewrite IH.
Qed.

Lemma filter_selected (P : Row -> Prop) (p : Row -> bool) df :
  (forall r, p r = true <-> P r) -> selected P df (filter p df).
Proof.
  intros Hp. induction df as [| r df IH]; cbn [filter].
  - constructor.
  - destruct (p r) eqn:E.
    + apply selected_keep; [now apply Hp | exact IH].
    + apply selected_drop; [| exact IH].
      intros HP. apply Hp in HP. congruence.
Qed.

(** [selected] fixes its output: the specification leaves no freedom. *)
Lemma selected_functional P df out1 out2 :
  selected P df out1 -> selected P df out2 -> out1 = out2.
Proof.
  intros H1. revert out2.
  induction H1; intros out2 H2; inversion H2; subst;
    try reflexivity; try contradiction.
  - f_equal. now apply IHselected.
  - now apply IHselected.
Qed.

Lemma selected_In P df out r :
  selected P df out -> (In r out <-> In r df /\ P r).
Proof.
  induction 1; cbn [In].
  - tauto.
  - rewrite IHselected. split.
    + intros [-> | [Hin HP]]; auto.
    + intros [[-> | Hin] HP]; auto.
  - rewrite IHselected. split.
    + intros [Hin HP]; auto.
    + intros [[-> | Hin] HP]; [contradiction | auto].
Qed.

Lemma filter_all (p : Row -> bool) df :
  (forall r, In r df -> p r = true) -> filter p df = df.
Proof.
  induction df as [| r df IH]; intros Hall; cbn [filter]; [reflexivity |].
  rewrite (Hall r (or_introl eq_refl)). f_equal.
  apply IH. intros r' Hr'. apply Hall. now right.
Qed.

Lemma unique_In (x : string) (s : list string) :
  In x (Series.unique s) <-> In x s.
Proof.
  induction s as [| y s IH]; cbn [Series.unique In]; [tauto |].
  rewrite filter_In, IH, negb_true_iff.
  destruct (String.eqb_spec y x) as [-> | Hne]; [tauto |].
  split.
  - intros [Heq | [Hin _]]; auto.
  - intros [Heq | Hin]; [contradiction | auto].
Qed.

Lemma fold_min_le (t : list Z) (x : Z) :
  fold_left Z.min t x <= x /\ forall y, In y t -> fold_left Z.min t x <= y.
Proof.
  revert x. induction t as [| a t IH]; intros x; cbn [fold_left In].
  - split; [lia | tauto].
  - destruct (IH (Z.min x a)) as [H1 H2]. split; [lia |].
    intros y [<- | Hy]; [lia | auto].
Qed.

Lemma fold_max_ge (t : list Z) (x : Z) :
  x <= fold_left Z.max t x /\ forall y, In y t -> y <= fold_left Z.max t x.
Proof.
  revert x. induction t as [| a t IH]; intros x; cbn [fold_left In].
  - split; [lia | tauto].
  - destruct (IH (Z.max x a)) as [H1 H2]. split; [lia |].
    intros y [<- | Hy]; [lia | auto].
Qed.

Lemma min_date_le df lo r :
  min_date df = Some lo -> In r df -> lo <= date r.
Proof.
  unfold min_date, Series.min, col. destruct df as [| r0 df]; [discriminate |].
  cbn [map]. intros [= <-] [<- | Hin].
  - apply (proj1 (fold_min_le _ _)).
  - apply (proj2 (fold_min_le _ _)). now apply in_map.
Qed.

Lemma max_date_ge df hi r :
  max_date df = Some hi -> In r df -> date r <= hi.
Proof.
  unfold max_date, Series.max, col. destruct df as [| r0 df]; [discriminate |].
  cbn [map]. intros [= <-] [<- | Hin].
  - apply (proj1 (fold_max_ge _ _)).
  - apply (proj2 (fold_max_ge _ _)). now apply in_map.
Qed.

Lemma ns_per_day_pos : 0 < ns_per_day.
Proof. reflexivity. Qed.

(** Midnight of a timestamp's day is not after the timestamp. *)
Lemma Timestamp_to_pydate_le t : Timestamp (to_pydate t) <= t.
Proof.
  unfold Timestamp, to_pydate. pose proof ns_per_day_pos.
  rewrite Z.mul_comm. apply Z.mul_div_le. assumption.
Qed.

(** For calendar dates, comparing with midnight of the latest day loses
    nothing. *)
Lemma calendar_le_Timestamp t hi :
  is_calendar_date t -> t <= hi -> t <= Timestamp (to_pydate hi).
Proof.
  unfold is_calendar_date, Timestamp, to_pydate. intros Hc Hle.
  pose proof ns_per_day_pos as Hpos.
  apply Z.div_exact in Hc; [| lia].
  rewrite Hc at 1. rewrite Z.mul_comm.
  apply Z.mul_le_mono_nonneg_r; [lia |].
  apply Z.div_le_mono; lia.
Qed.

Lemma calendar_day_iff t s e :
  is_calendar_date t ->
  (Timestamp s <= t <= Timestamp e <-> s <= to_pydate t <= e).
Proof.
  unfold is_calendar_date, Timestamp, to_pydate. intros Hc.
  pose proof ns_per_day_pos as Hpos.
  apply Z.div_exact in Hc; [| lia].
  set (k := t / ns_per_day) in *. rewrite Hc. nia.
Qed.

(** C1. For every table and every selection of machines [M], shifts [S]
    and inclusive date range, the filter returns exactly the
    order-preserving subsequence of the records whose machine is in [M],
    whose shift is in [S] and whose date lies between the start and the end
    of the range (the two days taken as timestamps, as the script compares
    them).  An empty machine set or an empty shift set gives the empty
    table, and a one-day range gives exactly the matching records of that
    date. *)
Theorem filtered_df_selects df M S start_date end_date :
  selected (matches M S start_date end_date) df
           (filtered_df df M S start_date end_date)
  /\ filtered_df df [] S start_date end_date = []
  /\ filtered_df df M [] start_date end_date = []
  /\ selected (fun r => In (machine r) M /\ In (shift r) S
                        /\ date r = Timestamp start_date)
              df (filtered_df df M S start_date start_date).
Proof.
  split; [| split; [| split]].
  - rewrite filtered_df_filter. apply filter_selected, keep_matches.
  - rewrite filtered_df_filter. induction df as [| r df IH]; [reflexivity |].
    cbn [filter]. unfold keep at 1. cbn [existsb andb]. exact IH.
  - rewrite filtered_df_filter. induction df as [| r df IH]; [reflexivity |].
    cbn [filter]. unfold keep at 1. cbn [existsb]. rewrite andb_false_r.
    cbn [andb]. exact IH.
  - rewrite filtered_df_filter. apply filter_selected.
    intros r. rewrite keep_matches. unfold matches. intuition lia.
Qed.

(** The same selection read on calendar days, for a table whose dates
    carry no time of day. *)
Lemma filtered_df_by_day df M S s e :
  calendar_dates df ->
  selected (fun r => In (machine r) M /\ In (shift r) S
                     /\ s <= to_pydate (date r) <= e)
           df (Filter.filtered_df df M S s e).
Proof.
  intros Hcal. rewrite filtered_df_filter.
  induction Hcal as [| r df Hr Hcal IH]; cbn [filter]; [constructor |].
  pose proof (keep_matches M S s e r) as Hk. unfold matches in Hk.
  rewrite (calendar_day_iff _ s e Hr) in Hk.
  destruct (keep M S s e r).
  - apply selected_keep; [now apply Hk | exact IH].
  - apply selected_drop; [| exact IH].
    intros HP. apply Hk in HP. discriminate.
Qed.

(** C2. For every table whose dates are calendar dates, the selection the
    sidebar starts from (every machine of the table, every shift of the
    table, the range from the earliest to the latest date) gives back the
    table unchanged.  The range exists unless the table is empty. *)
Theorem full_selection_identity df :
  calendar_dates df ->
  match date_input_default df with
  | Some (start_date, end_date) =>
      filtered_df df (all_machines df) (all_shifts df) start_date end_date = df
  | None => df = []
  end.
Proof.
  intros Hcal. unfold date_input_default.
  destruct (min_date df) as [lo |] eqn:Hlo;
    [| destruct df; [reflexivity | discriminate]].
  destruct (max_date df) as [hi |] eqn:Hhi;
    [| destruct df; [reflexivity | discriminate]].
  rewrite filtered_df_filter. apply filter_all. intros r Hr.
  apply keep_matches. unfold matches, all_machines, all_shifts, col.
  rewrite !unique_In. repeat split.
  - now apply in_map.
  - now apply in_map.
  - pose proof (Timestamp_to_pydate_le lo).
    pose proof (min_date_le df lo r Hlo Hr). lia.
  - apply calendar_le_Timestamp.
    + unfold calendar_dates in Hcal. rewrite Forall_forall in Hcal. now apply Hcal.
    + now apply (max_date_ge df hi r).
Qed.

Lemma scenario_calendar_dates : calendar_dates Scenario.two_machines.
Proof. repeat constructor. Qed.

Lemma full_selection_identity_witness :
  calendar_dates Scenario.two_machines /\
  filtered_df Scenario.two_machines ["M1"; "M2"]%string ["A"]%string 1 3
  = Scenario.two_machines.
Proof.
  split.
  - exact scenario_calendar_dates.
  - exact (full_selection_identity Scenario.two_machines scenario_calendar_dates).
Defined.

(** Why the hypothesis of C2 is there: a record stamped 08:00 on the
    latest day is after midnight of that day, and the default range drops
    it. *)
Example intraday_record_dropped :
  date_input_default Scenario.intraday = Some (5, 5) /\
  filtered_df Scenario.intraday (all_machines Scenario.intraday)
              (all_shifts Scenario.intraday) 5 5 = [].
Proof. split; reflexivity. Qed.

End FilterFacts.

(** ** Group-by: keys and sums *)

Section GroupFacts.

Import Aggregator.

Lemma slt_irrefl (x : string) : ~ String_as_OT.lt x x.
Proof. apply (StrictOrder_Irreflexive (R := String_as_OT.lt)). Qed.

Lemma slt_trans (x y z : string) :
  String_as_OT.lt x y -> String_as_OT.lt y z -> String_as_OT.lt x z.
Proof. apply (StrictOrder_Transitive (R := String_as_OT.lt)). Qed.

Lemma insert_key_In (k x : string) (ks : list string) :
  In x (insert_key k ks) <-> x = k \/ In x ks.
Proof.
  induction ks as [| h t IH]; cbn [insert_key In].
  - intuition.
  - destruct (String_as_OT.compare_spec k h) as [Heq | Hlt | Hgt]; cbn [In].
    + unfold String_as_OT.eq in Heq. subst h. intuition.
    + intuition.
    + rewrite IH. intuition.
Qed.

Lemma insert_key_sorted (k : string) (ks : list string) :
  StronglySorted String_as_OT.lt ks -> StronglySorted String_as_OT.lt (insert_key k ks).
Proof.
  induction 1 as [| h t Hs IH Hall]; cbn [insert_key].
  - repeat constructor.
  - destruct (String_as_OT.compare_spec k h) as [Heq | Hlt | Hgt].
    + now constructor.
    + constructor; [now constructor |].
      constructor; [assumption |].
      rewrite Forall_forall in *. intros y Hy. eapply slt_trans; eauto.
    + constructor; [assumption |].
      rewrite Forall_forall in *. intros y Hy.
      apply insert_key_In in Hy. destruct Hy as [-> | Hy]; auto.
Qed.

Lemma group_keys_In (k : string) (s : list (option string)) :
  In k (group_keys s) <-> In (Some k) s.
Proof.
  induction s as [| [x |] s IH]; cbn [group_keys In].
  - tauto.
  - rewrite insert_key_In, IH. split.
    + intros [-> | Hin]; auto.
    + intros [[= ->] | Hin]; auto.
  - rewrite IH. split; [auto | intros [Habs | Hin]; [discriminate | auto]].
Qed.

Lemma group_keys_sorted (s : list (option string)) :
  StronglySorted String_as_OT.lt (group_keys s).
Proof.
  induction s as [| [x |] s IH]; cbn [group_keys].
  - constructor.
  - now apply insert_key_sorted.
  - exact IH.
Qed.

(** A strictly ascending list is fixed by the set of its elements. *)
Lemma strictly_sorted_unique (l1 l2 : list string) :
  StronglySorted String_as_OT.lt l1 -> StronglySorted String_as_OT.lt l2 ->
  (forall x, In x l1 <-> In x l2) -> l1 = l2.
Proof.
  intros H1. revert l2.
  induction H1 as [| a l1 Hs1 IH Ha]; intros l2 H2 Hiff.
  - destruct l2 as [| b l2]; [reflexivity |].
    destruct (proj2 (Hiff b) (or_introl eq_refl)).
  - destruct H2 as [| b l2 Hs2 Hb].
    + destruct (proj1 (Hiff a) (or_introl eq_refl)).
    + rewrite Forall_forall in Ha, Hb.
      assert (a = b) as ->.
      { destruct (proj1 (Hiff a) (or_introl eq_refl)) as [Hba | Hin]; [auto |].
        destruct (proj2 (Hiff b) (or_introl eq_refl)) as [Hab | Hin']; [auto |].
        exfalso. apply (slt_irrefl a). eapply slt_trans; eauto. }
      f_equal. apply IH; [assumption |]. intros x. split; intros Hx.
      * destruct (proj1 (Hiff x) (or_intror Hx)) as [-> | Hin]; [| assumption].
        exfalso. apply (slt_irrefl x). auto.
      * destruct (proj2 (Hiff x) (or_intror Hx)) as [-> | Hin]; [| assumption].
        exfalso. apply (slt_irrefl x). auto.
Qed.

Lemma strictly_sorted_NoDup (l : list string) :
  StronglySorted String_as_OT.lt l -> NoDup l.
Proof.
  induction 1 as [| a l Hs IH Ha]; constructor; [| assumption].
  rewrite Forall_forall in Ha. intros Hin. apply (slt_irrefl a). auto.
Qed.

Lemma group_keys_Permutation (s s' : list (option string)) :
  Permutation s s' -> group_keys s = group_keys s'.
Proof.
  intros Hp. apply strictly_sorted_unique; try apply group_keys_sorted.
  intros x. rewrite !group_keys_In. split; apply Permutation_in;
    [assumption | now apply Permutation_sym].
Qed.

Lemma sum_app (l1 l2 : list Z) :
  Series.sum (l1 ++ l2) = Series.sum l1 + Series.sum l2.
Proof.
  induction l1 as [| x l1 IH]; cbn [Series.sum fold_right app]; [reflexivity |].
  fold (Series.sum (l1 ++ l2)). fold (Series.sum l1). lia.
Qed.

Lemma sum_cons (x : Z) (l : list Z) : Series.sum (x :: l) = x + Series.sum l.
Proof. reflexivity. Qed.

Lemma sum_Permutation (l l' : list Z) :
  Permutation l l' -> Series.sum l = Series.sum l'.
Proof.
  induction 1; rewrite ?sum_cons in *; lia.
Qed.

Lemma filter_Permutation {A : Type} (p : A -> bool) (l l' : list A) :
  Permutation l l' -> Permutation (filter p l) (filter p l').
Proof.
  induction 1 as [| x l l' Hp IH | x y l | l l' l'' H1 IH1 H2 IH2]; cbn [filter].
  - constructor.
  - destruct (p x); [now constructor | assumption].
  - destruct (p x), (p y); try apply Permutation_refl. apply perm_swap.
  - eapply Permutation_trans; eauto.
Qed.

Lemma sum_nonneg (l : list Z) :
  (forall x, In x l -> 0 <= x) -> 0 <= Series.sum l.
Proof.
  induction l as [| a l IH]; intros Hall; rewrite ?sum_cons; [cbn; lia |].
  assert (0 <= a) by (apply Hall; now left).
  assert (0 <= Series.sum l) by (apply IH; intros; apply Hall; now right). lia.
Qed.

Lemma sum_zero_all_zero (l : list Z) :
  (forall x, In x l -> 0 <= x) -> Series.sum l = 0 -> forall x, In x l -> x = 0.
Proof.
  induction l as [| a l IH]; intros Hall Hsum x Hx; [destruct Hx |].
  rewrite sum_cons in Hsum.
  assert (0 <= a) by (apply Hall; now left).
  assert (0 <= Series.sum l) by (apply sum_nonneg; intros; apply Hall; now right).
  destruct Hx as [<- | Hx]; [lia |].
  apply IH; [intros; apply Hall; now right | lia | assumption].
Qed.

Lemma sum_all_zero (l : list Z) :
  (forall x, In x l -> x = 0) -> Series.sum l = 0.
Proof.
  induction l as [| a l IH]; intros Hall; [reflexivity |].
  rewrite sum_cons, IH by (intros; apply Hall; now right).
  rewrite (Hall a) by now left. reflexivity.
Qed.

(** The groups, as the script receives them from [groupby(...).sum()]. *)
Lemma pareto_sums_eq df :
  pareto_sums df =
  map (fun k => (k, Series.sum (col downtime_min (filter (has_key downtime_reason k) df))))
      (group_keys (col downtime_reason df)).
Proof. unfold pareto_sums, groupby. now rewrite map_map. Qed.

Lemma pareto_sums_labels df :
  map fst (pareto_sums df) = group_keys (col downtime_reason df).
Proof. rewrite pareto_sums_eq, map_map. cbn [fst]. apply map_id. Qed.

Lemma pareto_sums_In df k v :
  In (k, v) (pareto_sums df) <->
  (exists r, In r df /\ downtime_reason r = Some k) /\
  v = Series.sum (col downtime_min (filter (has_key downtime_reason k) df)).
Proof.
  rewrite pareto_sums_eq, in_map_iff. split.
  - intros [k' [[= -> <-] Hin]]. split; [| reflexivity].
    apply group_keys_In in Hin. unfold col in Hin. apply in_map_iff in Hin.
    destruct Hin as [r [Hr Hin]]. eauto.
  - intros [[r [Hin Hr]] ->]. exists k. split; [reflexivity |].
    apply group_keys_In. unfold col. apply in_map_iff. eauto.
Qed.

(** Summing the groups over a duplicate-free key list that covers the
    table counts every row with a reason once. *)
Lemma group_total_cons ks r df :
  NoDup ks ->
  group_total ks (r :: df) =
  match downtime_reason r with
  | Some k => if in_dec string_dec k ks then downtime_min r else 0
  | None => 0
  end + group_total ks df.
Proof.
  unfold group_total. induction 1 as [| k ks Hnin Hnd IH].
  - cbn. now destruct (downtime_reason r).
  - cbn [map]. rewrite !sum_cons, IH. cbn [filter]. unfold has_key at 1.
    destruct (downtime_reason r) as [k' |] eqn:Hk'; [| lia].
    destruct (String.eqb_spec k' k) as [-> | Hne].
    + unfold col. cbn [map]. rewrite sum_cons.
      destruct (in_dec string_dec k ks) as [Hin | _]; [contradiction |].
      destruct (in_dec string_dec k (k :: ks)) as [_ | Hn]; [lia |].
      exfalso. apply Hn. now left.
    + destruct (in_dec string_dec k' ks) as [Hin | Hn];
        destruct (in_dec string_dec k' (k :: ks)) as [Hin' | Hn']; try lia.
      * exfalso. apply Hn'. now right.
      * destruct Hin' as [-> | Hin']; [congruence | contradiction].
Qed.

Lemma group_total_covering ks df :
  NoDup ks ->
  (forall r k, In r df -> downtime_reason r = Some k -> In k ks) ->
  group_total ks df = Series.sum (map labelled_downtime df).
Proof.
  intros Hnd. induction df as [| r df IH]; intros Hcov.
  - unfold group_total. cbn [filter col map]. apply sum_all_zero.
    intros x Hx. apply in_map_iff in Hx. now destruct Hx as [k [<- _]].
  - rewrite group_total_cons by assumption. cbn [map]. rewrite sum_cons.
    rewrite IH by (intros r' k' Hin; apply Hcov; now right).
    f_equal. unfold labelled_downtime.
    destruct (downtime_reason r) as [k |] eqn:Hk; [| reflexivity].
    destruct (in_dec string_dec k ks) as [_ | Hn]; [reflexivity |].
    exfalso. apply Hn. apply (Hcov r k); [now left | assumption].
Qed.

Lemma pareto_sums_total df :
  Series.sum (map snd (pareto_sums df)) = Series.sum (map labelled_downtime df).
Proof.
  rewrite pareto_sums_eq, map_map. cbn [snd].
  apply (group_total_covering (group_keys (col downtime_reason df)) df).
  - apply strictly_sorted_NoDup, group_keys_sorted.
  - intros r k Hin Hr. apply group_keys_In. unfold col.
    apply in_map_iff. eauto.
Qed.

Lemma pareto_sums_Permutation df df' :
  Permutation df df' -> pareto_sums df = pareto_sums df'.
Proof.
  intros Hp. rewrite !pareto_sums_eq.
  rewrite (group_keys_Permutation (col downtime_reason df) (col downtime_reason df'))
    by (now apply Permutation_map).
  apply map_ext. intros k. f_equal.
  apply sum_Permutation. unfold col. apply Permutation_map.
  now apply filter_Permutation.
Qed.

End GroupFacts.

(** ** Downtime Pareto *)

Section ParetoFacts.

Import Aggregator.

(** The insertion sort meets the contract of the library sort. *)
Lemma insert_desc_Permutation x l : Permutation (insert_desc x l) (x :: l).
Proof.
  induction l as [| y t IH]; cbn [insert_desc]; [apply Permutation_refl |].
  destruct (snd y <=? snd x); [apply Permutation_refl |].
  eapply Permutation_trans; [apply perm_skip, IH | apply perm_swap].
Qed.

Lemma insert_desc_sorted x l :
  StronglySorted descending l -> StronglySorted descending (insert_desc x l).
Proof.
  induction 1 as [| y t Hs IH Hy]; cbn [insert_desc].
  - repeat constructor.
  - destruct (Z.leb_spec (snd y) (snd x)) as [Hle | Hgt].
    + constructor; [now constructor |].
      constructor; [exact Hle |].
      rewrite Forall_forall in *. intros z Hz. unfold descending in *.
      specialize (Hy z Hz). lia.
    + constructor; [exact IH |].
      rewrite Forall_forall in *. intros z Hz.
      apply (Permutation_in _ (insert_desc_Permutation x t)) in Hz.
      destruct Hz as [<- | Hz]; [unfold descending; lia | auto].
Qed.

Lemma stable_sort_values_sorts : sorts_descending stable_sort_values.
Proof.
  intros l. unfold stable_sort_values. induction l as [| x l [IHp IHs]]; cbn [fold_right].
  - split; constructor.
  - split.
    + eapply Permutation_trans; [apply insert_desc_Permutation | now apply perm_skip].
    + now apply insert_desc_sorted.
Qed.

(** Running sums of non-negative entries never go down, and end at the
    total. *)
Lemma cumsum_from_sorted acc d :
  (forall x, In x d -> 0 <= x) ->
  StronglySorted Z.le (Series.cumsum_from acc d) /\
  Forall (fun c => acc <= c) (Series.cumsum_from acc d).
Proof.
  revert acc. induction d as [| x d IH]; intros acc Hnn; cbn [Series.cumsum_from].
  - split; constructor.
  - assert (0 <= x) by (apply Hnn; now left).
    destruct (IH (acc + x)) as [Hs Hall]; [intros; apply Hnn; now right |].
    split.
    + constructor; assumption.
    + constructor; [lia |].
      eapply Forall_impl; [| exact Hall]. cbn. intros; lia.
Qed.

Lemma cumsum_from_last acc d x :
  d <> [] -> last (Series.cumsum_from acc d) x = acc + Series.sum d.
Proof.
  revert acc. induction d as [| a d IH]; intros acc Hne; [congruence |].
  destruct d as [| b d].
  - cbn. lia.
  - change (Series.cumsum_from acc (a :: b :: d))
      with ((acc + a) :: Series.cumsum_from (acc + a) (b :: d)).
    change (last ((acc + a) :: Series.cumsum_from (acc + a) (b :: d)) x)
      with (last (Series.cumsum_from (acc + a) (b :: d)) x).
    rewrite IH by discriminate. rewrite (sum_cons a). lia.
Qed.

Lemma cumsum_from_length acc d :
  List.length (Series.cumsum_from acc d) = List.length d.
Proof.
  revert acc. induction d as [| a d IH]; intros acc; cbn; [reflexivity |].
  now rewrite IH.
Qed.

Lemma cumsum_zero d :
  (forall x, In x d -> x = 0) -> Series.cumsum d = map (fun _ => 0) d.
Proof.
  unfold Series.cumsum. induction d as [| a d IH]; intros Hz; [reflexivity |].
  cbn [Series.cumsum_from map]. rewrite (Hz a) by now left.
  cbn [Z.add]. f_equal. apply IH. intros; apply Hz; now right.
Qed.

Lemma StronglySorted_map_mono {A B : Type} (R : A -> A -> Prop)
    (R' : B -> B -> Prop) (f : A -> B) (l : list A) :
  (forall a b, R a b -> R' (f a) (f b)) ->
  StronglySorted R l -> StronglySorted R' (map f l).
Proof.
  intros Hmono. induction 1 as [| a l Hs IH Ha]; cbn [map]; constructor.
  - exact IH.
  - rewrite Forall_forall in *. intros y Hy. apply in_map_iff in Hy.
    destruct Hy as [b [<- Hb]]. auto.
Qed.

Lemma last_of_map {A B : Type} (f : A -> B) (l : list A) (d : A) :
  last (map f l) (f d) = f (last l d).
Proof.
  induction l as [| a l IH]; [reflexivity |].
  destruct l as [| b l]; [reflexivity |]. exact IH.
Qed.

Lemma Qeq_bool_inject_Z (T : Z) : T <> 0 -> Qeq_bool (inject_Z T) 0 = false.
Proof.
  intros HT. destruct (Qeq_bool (inject_Z T) 0) eqn:E; [| reflexivity].
  apply Qeq_bool_iff in E. unfold Qeq in E. cbn in E. lia.
Qed.

(** One entry of line 262 when the total is not zero. *)
Lemma pct_finite (T c : Z) :
  T <> 0 ->
  num_mul (num_div (num_of_Z c) (num_of_Z T)) (Fin 100)
  = Fin (Qred (Qred (inject_Z c / inject_Z T) * 100)).
Proof.
  intros HT. unfold num_div, num_of_Z. now rewrite (Qeq_bool_inject_Z T HT).
Qed.

Lemma pct_mono (T a b : Z) :
  0 < T -> a <= b ->
  (Qred (Qred (inject_Z a / inject_Z T) * 100)
   <= Qred (Qred (inject_Z b / inject_Z T) * 100))%Q.
Proof.
  intros HT Hab. rewrite !Qred_correct.
  apply Qmult_le_compat_r; [| discriminate].
  unfold Qdiv. apply Qmult_le_compat_r.
  - now rewrite <- Zle_Qle.
  - apply Qinv_le_0_compat. change 0%Q with (inject_Z 0).
    rewrite <- Zle_Qle. lia.
Qed.

Lemma pct_total (T : Z) :
  T <> 0 -> (Qred (Qred (inject_Z T / inject_Z T) * 100) == 100)%Q.
Proof.
  intros HT. rewrite !Qred_correct.
  assert (Hnz : ~ (inject_Z T == 0)%Q).
  { unfold Qeq. cbn. lia. }
  field. exact Hnz.
Qed.

(** The entries of the Pareto table are the groups. *)
Lemma pareto_In sort_values df k v :
  sorts_descending sort_values ->
  (In (k, v) (pareto sort_values df) <-> In (k, v) (pareto_sums df)).
Proof.
  intros Hsv. destruct (Hsv (pareto_sums df)) as [Hp _]. unfold pareto.
  split; apply Permutation_in; [assumption | now apply Permutation_sym].
Qed.

Lemma group_sum_nonneg df k :
  (forall r, In r df -> 0 <= downtime_min r) ->
  0 <= Series.sum (col downtime_min (filter (has_key downtime_reason k) df)).
Proof.
  intros Hnn. apply sum_nonneg. intros x Hx. unfold col in Hx.
  apply in_map_iff in Hx. destruct Hx as [r [<- Hr]].
  apply filter_In in Hr. apply Hnn, Hr.
Qed.

Lemma labelled_total df :
  (forall r, In r df -> downtime_reason r = None -> downtime_min r = 0) ->
  Series.sum (map labelled_downtime df) = Series.sum (col downtime_min df).
Proof.
  intros Hlab. unfold col. f_equal. apply map_ext_in. intros r Hr.
  unfold labelled_downtime. destruct (downtime_reason r) eqn:E; [reflexivity |].
  symmetry. now apply Hlab.
Qed.

(** A descending rearrangement of three entries with distinct values is
    fixed by the contract. *)
Lemma sorts_three (sort_values : sort_fn) (a b c : string * Z) :
  sorts_descending sort_values ->
  snd b < snd a -> snd c < snd b ->
  sort_values [a; b; c] = [a; b; c].
Proof.
  intros Hsv Hab Hbc. destruct (Hsv [a; b; c]) as [Hp Hs].
  assert (Hnd : NoDup (sort_values [a; b; c])).
  { apply (Permutation_NoDup (Permutation_sym Hp)).
    repeat constructor; cbn [In]; intros H; intuition (subst; lia). }
  pose proof (Permutation_length Hp) as Hlen.
  destruct (sort_values [a; b; c]) as [| x [| y [| z [| w out]]]]; try discriminate.
  assert (Hx : In x [a; b; c]) by (apply (Permutation_in _ Hp); cbn; auto).
  assert (Hy : In y [a; b; c]) by (apply (Permutation_in _ Hp); cbn; auto).
  assert (Hz : In z [a; b; c]) by (apply (Permutation_in _ Hp); cbn; auto).
  inversion Hs as [| ? ? Hs' Hxs]; subst.
  inversion Hs' as [| ? ? _ Hys]; subst.
  inversion Hxs as [| ? ? Hxy Hxs']; subst. inversion Hxs' as [| ? ? Hxz _]; subst.
  inversion Hys as [| ? ? Hyz _]; subst.
  inversion Hnd as [| ? ? Hnx Hnd']; subst. inversion Hnd' as [| ? ? Hny _]; subst.
  unfold descending in *. cbn [In] in *.
  destruct Hx as [<- | [<- | [<- | []]]];
    destruct Hy as [<- | [<- | [<- | []]]];
    destruct Hz as [<- | [<- | [<- | []]]];
    try reflexivity; try lia; exfalso; tauto.
Qed.

End ParetoFacts.

Section ParetoClaims.

Import Aggregator.

(** C4. For every filtered table with non-negative downtime whose rows
    without a reason carry no downtime, and every library sort meeting its
    contract: the Pareto table has one entry per downtime reason holding
    the sum of [downtime_min] of that reason, in descending order of the
    sum; the per-reason sums add up to the total downtime of the filtered
    table; and when that total is positive the cumulative percentages are
    finite, one per entry, never decreasing, and end at 100.  Reasons
    A:50, B:30, C:20 come out in the order A, B, C with cumulative
    percentages 50, 80, 100. *)
Theorem pareto_cumulative_percentage (sort_values : sort_fn) (df : DataFrame) :
  sorts_descending sort_values ->
  (forall r, In r df -> 0 <= downtime_min r) ->
  (forall r, In r df -> downtime_reason r = None -> downtime_min r = 0) ->
  (NoDup (map fst (pareto sort_values df)) /\
   forall k v,
     In (k, v) (pareto sort_values df) <->
     (exists r, In r df /\ downtime_reason r = Some k) /\
     v = Series.sum (col downtime_min (filter (has_key downtime_reason k) df)))
  /\ StronglySorted descending (pareto sort_values df)
  /\ Series.sum (map snd (pareto sort_values df)) = Series.sum (col downtime_min df)
  /\ (0 < Series.sum (col downtime_min df) ->
      exists qs,
        cumulative_pct (pareto sort_values df) = map Fin qs /\
        List.length qs = List.length (pareto sort_values df) /\
        StronglySorted Qle qs /\
        (last qs 0 == 100)%Q)
  /\ (pareto sort_values Scenario.three_reasons
        = [("A", 50); ("B", 30); ("C", 20)]%string /\
      cumulative_pct (pareto sort_values Scenario.three_reasons)
        = [Fin 50; Fin 80; Fin 100]).
Proof.
  intros Hsv Hnn Hlab.
  destruct (Hsv (pareto_sums df)) as [Hperm Hsorted].
  assert (Htotal : Series.sum (map snd (pareto sort_values df))
                   = Series.sum (col downtime_min df)).
  { unfold pareto.
    rewrite (sum_Permutation _ _ (Permutation_map snd Hperm)).
    rewrite pareto_sums_total. now apply labelled_total. }
  split; [split |]; [| | split; [| split; [| split]]].
  - unfold pareto.
    apply (Permutation_NoDup (Permutation_sym (Permutation_map fst Hperm))).
    rewrite pareto_sums_labels. apply strictly_sorted_NoDup, group_keys_sorted.
  - intros k v. rewrite (pareto_In sort_values df k v Hsv). apply pareto_sums_In.
  - exact Hsorted.
  - exact Htotal.
  - intros Hpos. rewrite <- Htotal in Hpos.
    set (p := pareto sort_values df) in *.
    set (T := Series.sum (map snd p)) in *.
    exists (map (fun c => Qred (Qred (inject_Z c / inject_Z T) * 100))
                (Series.cumsum (map snd p))).
    assert (Hd : forall x, In x (map snd p) -> 0 <= x).
    { intros x Hx. apply in_map_iff in Hx. destruct Hx as [[k v] [<- Hin]].
      apply (pareto_In sort_values df k v Hsv) in Hin.
      apply pareto_sums_In in Hin. destruct Hin as [_ ->].
      now apply group_sum_nonneg. }
    split; [| split; [| split]].
    + unfold cumulative_pct. fold T. rewrite map_map. apply map_ext.
      intros c. apply pct_finite. lia.
    + unfold Series.cumsum. now rewrite !length_map, cumsum_from_length, length_map.
    + apply (StronglySorted_map_mono Z.le).
      * intros a b Hab. apply pct_mono; [exact Hpos | exact Hab].
      * apply (cumsum_from_sorted 0 (map snd p) Hd).
    + assert (Hne : map snd p <> []).
      { intros Hnil. unfold T in Hpos. rewrite Hnil in Hpos. cbn in Hpos. lia. }
      change 0%Q with ((fun c => Qred (Qred (inject_Z c / inject_Z T) * 100)) 0) at 1.
      rewrite last_of_map. unfold Series.cumsum.
      rewrite (cumsum_from_last 0 (map snd p) 0 Hne). cbn [Z.add]. fold T.
      apply pct_total. lia.
  - assert (Hp3 : pareto sort_values Scenario.three_reasons
                  = [("A", 50); ("B", 30); ("C", 20)]%string).
    { unfold pareto.
      change (pareto_sums Scenario.three_reasons)
        with [("A", 50); ("B", 30); ("C", 20)]%string.
      apply sorts_three; [exact Hsv | reflexivity | reflexivity]. }
    split; [exact Hp3 | now rewrite Hp3].
Qed.

Lemma three_reasons_invariants :
  (forall r, In r Scenario.three_reasons -> 0 <= downtime_min r) /\
  (forall r, In r Scenario.three_reasons ->
             downtime_reason r = None -> downtime_min r = 0).
Proof.
  split; intros r Hr; cbn in Hr;
    repeat (destruct Hr as [<- | Hr]; [cbn; try lia; try discriminate |]);
    destruct Hr.
Qed.

Lemma pareto_cumulative_percentage_witness :
  sorts_descending stable_sort_values /\
  (forall r, In r Scenario.three_reasons -> 0 <= downtime_min r) /\
  (forall r, In r Scenario.three_reasons ->
             downtime_reason r = None -> downtime_min r = 0) /\
  Series.sum (map snd (pareto stable_sort_values Scenario.three_reasons))
  = Series.sum (col downtime_min Scenario.three_reasons).
Proof.
  split; [exact stable_sort_values_sorts |].
  split; [exact (proj1 three_reasons_invariants) |].
  split; [exact (proj2 three_reasons_invariants) |].
  exact (proj1 (proj2 (proj2
    (pareto_cumulative_percentage stable_sort_values Scenario.three_reasons
       stable_sort_values_sorts
       (proj1 three_reasons_invariants) (proj2 three_reasons_invariants))))).
Defined.

(** C5, as stated, fails for every sort that the script could be using:
    two tables with the same rows in a different order give the same
    groups, hence the same Pareto table, although the tied reasons first
    appear in opposite orders. *)
Lemma ties_by_first_appearance_refuted :
  ~ exists sort_values : sort_fn,
      sorts_descending sort_values /\
      forall df, ties_by_first_appearance df (pareto sort_values df).
Proof.
  intros [sort_values [Hsv Hall]].
  pose proof (Hall Scenario.tie_B_first) as HB.
  pose proof (Hall Scenario.tie_A_first) as HA.
  unfold pareto in HB, HA.
  change (pareto_sums Scenario.tie_B_first) with [("A", 10); ("B", 10)]%string in HB.
  change (pareto_sums Scenario.tie_A_first) with [("A", 10); ("B", 10)]%string in HA.
  destruct (Hsv [("A", 10); ("B", 10)]%string) as [Hp _].
  set (out := sort_values [("A", 10); ("B", 10)]%string) in *.
  assert (HinA : In ("A"%string, 10) out)
    by (apply (Permutation_in _ (Permutation_sym Hp)); cbn; auto).
  assert (HinB : In ("B"%string, 10) out)
    by (apply (Permutation_in _ (Permutation_sym Hp)); cbn; auto).
  destruct (HB "B"%string "A"%string 10 0%nat 1%nat HinB HinA eq_refl eq_refl)
    as [i [j [Hi [Hj Hij]]]]; [lia |].
  destruct (HA "A"%string "B"%string 10 0%nat 1%nat HinA HinB eq_refl eq_refl)
    as [i' [j' [Hi' [Hj' Hij']]]]; [lia |].
  rewrite Hi in Hj'. rewrite Hj in Hi'.
  injection Hj' as <-. injection Hi' as <-. lia.
Qed.

(** C5, amended.  The group-by hands the groups to the sort in ascending
    order of the reason label, whatever the order of the rows; so the
    Pareto table, and with it the place of tied reasons, is the same for
    every reordering of the filtered rows and does not follow first
    appearance. *)
Theorem pareto_ignores_row_order (sort_values : sort_fn) (df df' : DataFrame) :
  Permutation df df' ->
  StronglySorted String_as_OT.lt (map fst (pareto_sums df))
  /\ pareto_sums df = pareto_sums df'
  /\ pareto sort_values df = pareto sort_values df'.
Proof.
  intros Hp. split; [| split].
  - rewrite pareto_sums_labels. apply group_keys_sorted.
  - now apply pareto_sums_Permutation.
  - unfold pareto. now rewrite (pareto_sums_Permutation df df' Hp).
Qed.

Lemma pareto_ignores_row_order_witness :
  Permutation Scenario.tie_B_first Scenario.tie_A_first /\
  pareto stable_sort_values Scenario.tie_B_first
  = pareto stable_sort_values Scenario.tie_A_first.
Proof.
  split.
  - apply perm_swap.
  - exact (proj2 (proj2
      (pareto_ignores_row_order stable_sort_values
         Scenario.tie_B_first Scenario.tie_A_first (perm_swap _ _ _)))).
Defined.

(** C6, as stated, fails: with no downtime at all the single group gets
    NaN, not a defined value. *)
Lemma zero_total_defined_refuted :
  ~ forall df,
      Series.sum (col downtime_min df) = 0 ->
      Forall (fun x => x <> NaN)
             (cumulative_pct (pareto stable_sort_values df)).
Proof.
  intros Hall. specialize (Hall Scenario.no_downtime eq_refl).
  change (cumulative_pct (pareto stable_sort_values Scenario.no_downtime))
    with [NaN] in Hall.
  inversion Hall as [| ? ? Hx _]. now apply Hx.
Qed.

(** C6, amended.  For every filtered table with non-negative downtime
    whose total downtime is 0, the cumulative percentage of every group is
    NaN: the division by the zero total is not guarded and nothing is put
    in its place. *)
Theorem zero_total_gives_nan (sort_values : sort_fn) (df : DataFrame) :
  sorts_descending sort_values ->
  (forall r, In r df -> 0 <= downtime_min r) ->
  Series.sum (col downtime_min df) = 0 ->
  cumulative_pct (pareto sort_values df)
  = map (fun _ => NaN) (pareto sort_values df).
Proof.
  intros Hsv Hnn Hzero.
  assert (Hrows : forall r, In r df -> downtime_min r = 0).
  { intros r Hr. apply (sum_zero_all_zero (col downtime_min df)).
    - intros x Hx. unfold col in Hx. apply in_map_iff in Hx.
      destruct Hx as [r' [<- Hr']]. now apply Hnn.
    - exact Hzero.
    - unfold col. now apply in_map. }
  assert (Hd : forall x, In x (map snd (pareto sort_values df)) -> x = 0).
  { intros x Hx. apply in_map_iff in Hx. destruct Hx as [[k v] [<- Hin]].
    apply (pareto_In sort_values df k v Hsv) in Hin.
    apply pareto_sums_In in Hin. destruct Hin as [_ ->]. cbn [snd].
    apply sum_all_zero. intros x Hx. unfold col in Hx.
    apply in_map_iff in Hx. destruct Hx as [r [<- Hr]].
    apply filter_In in Hr. apply Hrows, Hr. }
  unfold cumulative_pct.
  rewrite (cumsum_zero _ Hd), (sum_all_zero _ Hd), !map_map. reflexivity.
Qed.

Lemma no_downtime_nonneg :
  forall r, In r Scenario.no_downtime -> 0 <= downtime_min r.
Proof. intros r [<- | []]. cbn. lia. Qed.

Lemma zero_total_gives_nan_witness :
  sorts_descending stable_sort_values /\
  (forall r, In r Scenario.no_downtime -> 0 <= downtime_min r) /\
  Series.sum (col downtime_min Scenario.no_downtime) = 0 /\
  cumulative_pct (pareto stable_sort_values Scenario.no_downtime) = [NaN].
Proof.
  split; [exact stable_sort_values_sorts |].
  split; [exact no_downtime_nonneg |].
  split; [reflexivity |].
  exact (zero_total_gives_nan stable_sort_values Scenario.no_downtime
           stable_sort_values_sorts no_downtime_nonneg eq_refl).
Defined.

End ParetoClaims.

(** ** Scalar KPIs and machine comparison *)

Section KpiFacts.

Import Aggregator.

Lemma mean_is_mean (s : list Q) : s <> [] -> is_mean_of (Series.mean s) s.
Proof.
  intros Hne. split; [exact Hne |].
  unfold Series.mean, num_div, num_of_Z.
  assert (Hn : Z.of_nat (List.length s) <> 0) by (destruct s; [congruence | cbn; lia]).
  rewrite (Qeq_bool_inject_Z _ Hn).
  eexists. split; [reflexivity |].
  rewrite Qred_correct. field. unfold Qeq. cbn. lia.
Qed.

Lemma machine_oee_eq df :
  machine_oee df =
  map (fun k =>
         {| mm_machine := k;
            mm_oee := Series.mean (col oee (rows_of_machine k df));
            mm_availability := Series.mean (col availability (rows_of_machine k df));
            mm_performance := Series.mean (col performance (rows_of_machine k df));
            mm_quality := Series.mean (col quality (rows_of_machine k df)) |})
      (group_keys (col (fun r => Some (machine r)) df)).
Proof. unfold machine_oee, groupby. now rewrite map_map. Qed.

Lemma machine_keys_In df m :
  In m (group_keys (col (fun r => Some (machine r)) df)) <-> In m (col machine df).
Proof.
  rewrite group_keys_In. unfold col. rewrite !in_map_iff. split.
  - intros [r [[= <-] Hr]]. eauto.
  - intros [r [<- Hr]]. eauto.
Qed.

(** C9. For every filtered table the machine comparison has one entry per
    machine of the table, and the entry of a machine holds the arithmetic
    means of [oee], [availability], [performance] and [quality] over the
    rows of that machine.  For machines M1 with OEE 0.9, 0.8, 0.7 and M2
    with 0.6, 0.5, 0.4 the mean OEE is 0.8 for M1 and 0.5 for M2. *)
Theorem machine_oee_means (df : DataFrame) :
  StronglySorted String_as_OT.lt (map mm_machine (machine_oee df))
  /\ (forall m, In m (map mm_machine (machine_oee df)) <-> In m (col machine df))
  /\ (forall e, In e (machine_oee df) ->
        is_mean_of (mm_oee e) (col oee (rows_of_machine (mm_machine e) df)) /\
        is_mean_of (mm_availability e)
                   (col availability (rows_of_machine (mm_machine e) df)) /\
        is_mean_of (mm_performance e)
                   (col performance (rows_of_machine (mm_machine e) df)) /\
        is_mean_of (mm_quality e) (col quality (rows_of_machine (mm_machine e) df)))
  /\ map (fun e => (mm_machine e, mm_oee e)) (machine_oee Scenario.two_machines)
     = [("M1"%string, Fin (4 # 5)); ("M2"%string, Fin (1 # 2))].
Proof.
  assert (Hkeys : map mm_machine (machine_oee df)
                  = group_keys (col (fun r => Some (machine r)) df)).
  { rewrite machine_oee_eq, map_map. cbn [mm_machine]. apply map_id. }
  split; [| split; [| split]].
  - rewrite Hkeys. apply group_keys_sorted.
  - intros m. rewrite Hkeys. apply machine_keys_In.
  - intros e He. rewrite machine_oee_eq in He. apply in_map_iff in He.
    destruct He as [k [<- Hk]]. cbn [mm_machine mm_oee mm_availability
                                     mm_performance mm_quality].
    apply machine_keys_In in Hk. unfold col in Hk. apply in_map_iff in Hk.
    destruct Hk as [r [Hr Hin]].
    assert (Hrows : rows_of_machine k df <> []).
    { intros Hnil. assert (Hr' : In r (rows_of_machine k df)).
      { apply filter_In. split; [exact Hin |]. now apply String.eqb_eq. }
      rewrite Hnil in Hr'. destruct Hr'. }
    assert (Hcol : forall c : Row -> Q, col c (rows_of_machine k df) <> []).
    { intros c Hnil. apply Hrows. unfold col in Hnil.
      now apply map_eq_nil in Hnil. }
    repeat split; try apply mean_is_mean; try apply Hcol;
      apply (proj2 (mean_is_mean _ (Hcol _))).
  - reflexivity.
Qed.

(** C7, as stated, fails: a date range that holds no record leaves an
    empty table, and the mean OEE over it is NaN. *)
Lemma empty_fallback_refuted :
  ~ forall df M S start_date end_date,
      Filter.filtered_df df M S start_date end_date = [] ->
      avg_oee (kpis (Filter.filtered_df df M S start_date end_date)) <> NaN.
Proof.
  intros Hall.
  now apply (Hall Scenario.one_day ["M1"%string] ["A"%string] 1 2 eq_refl).
Qed.

(** C7, amended.  For every selection that leaves an empty filtered table
    the KPI computation ends without an error: the four means are NaN, no
    other value is put in their place, and each is rendered as the string
    nan%; the two sums are 0. *)
Theorem kpis_of_empty_selection df M S start_date end_date :
  Filter.filtered_df df M S start_date end_date = [] ->
  kpis (Filter.filtered_df df M S start_date end_date)
  = {| avg_oee := NaN; avg_availability := NaN; avg_performance := NaN;
       avg_quality := NaN; total_good_parts := 0; total_downtime := 0 |}
  /\ format_percent1 (avg_oee (kpis (Filter.filtered_df df M S start_date end_date)))
     = "nan%"%string
  /\ format_percent1
       (avg_availability (kpis (Filter.filtered_df df M S start_date end_date)))
     = "nan%"%string
  /\ format_percent1
       (avg_performance (kpis (Filter.filtered_df df M S start_date end_date)))
     = "nan%"%string
  /\ format_percent1
       (avg_quality (kpis (Filter.filtered_df df M S start_date end_date)))
     = "nan%"%string.
Proof.
  intros Hempty. rewrite Hempty. repeat split.
Qed.

Lemma kpis_of_empty_selection_witness :
  Filter.filtered_df Scenario.one_day ["M1"%string] ["A"%string] 1 2 = [] /\
  avg_oee (kpis (Filter.filtered_df Scenario.one_day ["M1"%string] ["A"%string] 1 2))
  = NaN.
Proof.
  split; [reflexivity |].
  exact (f_equal avg_oee
    (proj1 (kpis_of_empty_selection Scenario.one_day
              ["M1"%string] ["A"%string] 1 2 eq_refl))).
Defined.

End KpiFacts.

(** ** Loader *)

Section LoaderFacts.

Import Loader.

Context {Frame : Type} `{Pandas Frame}.

Lemma missing_In (cols : list string) (c : string) :
  In c (missing cols) <-> In c required_columns /\ ~ In c cols.
Proof.
  unfold missing. rewrite filter_In, negb_true_iff.
  rewrite <- not_true_iff_false, existsb_eqb_In. tauto.
Qed.

Lemma missing_nil_iff (cols : list string) :
  missing cols = [] <-> incl required_columns cols.
Proof.
  split.
  - intros Hnil c Hc.
    destruct (in_dec string_dec c cols) as [Hin | Hnin]; [exact Hin |].
    assert (Hm : In c (missing cols)) by (apply missing_In; auto).
    rewrite Hnil in Hm. destruct Hm.
  - intros Hincl. destruct (missing cols) as [| c l] eqn:E; [reflexivity |].
    assert (Hm : In c (missing cols)) by (rewrite E; now left).
    apply missing_In in Hm. destruct Hm as [Hreq Hnin].
    exfalso. apply Hnin, Hincl, Hreq.
Qed.

(** Once the file is parsed, the loader is the column check followed by
    the date conversion. *)
Lemma load_uploaded_file_parsed (f : UploadedFile) (df : Frame) :
  parsed f = Some (inr df) ->
  exists read,
    (read = ReadCsv \/ read = ReadExcel) /\
    load_uploaded_file f
    = (read :: fst (check_and_convert df), snd (check_and_convert df)).
Proof.
  unfold parsed, load_uploaded_file.
  destruct (endswith (name f) ".csv").
  - intros [= Hread]. rewrite Hread. exists ReadCsv. split; [now left | reflexivity].
  - destruct (endswith (name f) ".xlsx" || endswith (name f) ".xls");
      [| discriminate].
    intros [= Hread]. rewrite Hread. exists ReadExcel.
    split; [now right | reflexivity].
Qed.

Lemma check_and_convert_missing (df : Frame) :
  missing (columns df) <> [] ->
  check_and_convert df = ([], Returned (None, missing_message (missing (columns df)))).
Proof.
  unfold check_and_convert. destruct (missing (columns df)); [congruence | reflexivity].
Qed.

Lemma check_and_convert_complete (df : Frame) :
  missing (columns df) = [] ->
  check_and_convert df
  = ([ToDatetime],
     match to_datetime_date df with
     | inr df' => Returned (Some df', loaded_message)
     | inl e => Raised e
     end).
Proof.
  unfold check_and_convert. intros ->. now destruct (to_datetime_date df).
Qed.

(** The date conversion is reached exactly when no required column is
    missing. *)
Lemma to_datetime_reached_iff (f : UploadedFile) (df : Frame) :
  parsed f = Some (inr df) ->
  (In ToDatetime (fst (load_uploaded_file f)) <-> missing (columns df) = []).
Proof.
  intros Hp. destruct (load_uploaded_file_parsed f df Hp) as [read [Hread ->]].
  cbn [fst]. destruct (missing (columns df)) as [| c l] eqn:E.
  - rewrite (check_and_convert_complete df E). cbn. tauto.
  - rewrite check_and_convert_missing by congruence. cbn.
    split; [| discriminate].
    intros [Habs | []]. destruct Hread; subst; discriminate.
Qed.

Lemma only_quality_missing (cols : list string) :
  (forall c, In c required_columns -> (In c cols <-> c <> "quality"%string)) ->
  missing cols = ["quality"%string].
Proof.
  intros Hcols. unfold missing.
  rewrite (filter_ext_in _ (fun c => String.eqb c "quality")).
  - reflexivity.
  - intros c Hc. specialize (Hcols c Hc).
    destruct (String.eqb_spec c "quality") as [-> | Hne].
    + apply negb_true_iff, not_true_iff_false. rewrite existsb_eqb_In. tauto.
    + apply negb_false_iff, existsb_eqb_In. tauto.
Qed.

(** C3. For every uploaded file that parses, the column check passes
    exactly when all thirteen required columns are among the columns of
    the frame (other columns do not matter), and the loader then goes on to
    the date conversion and reports success when that succeeds; otherwise
    the loader hands back no frame and a message that lists the required
    columns that are absent, each once and no other.  A frame that lacks
    only [quality] is rejected with the message naming [quality] alone. *)
Theorem schema_validation (f : UploadedFile) (df : Frame) :
  parsed f = Some (inr df) ->
  List.length required_columns = 13%nat
  /\ (forall c, In c (missing (columns df)) <->
                In c required_columns /\ ~ In c (columns df))
  /\ NoDup (missing (columns df))
  /\ (missing (columns df) = [] <-> incl required_columns (columns df))
  /\ (incl required_columns (columns df) ->
      snd (load_uploaded_file f)
      = match to_datetime_date df with
        | inr df' => Returned (Some df', loaded_message)
        | inl e => Raised e
        end)
  /\ (~ incl required_columns (columns df) ->
      snd (load_uploaded_file f)
      = Returned (None, missing_message (missing (columns df))))
  /\ ((forall c, In c required_columns ->
                 (In c (columns df) <-> c <> "quality"%string)) ->
      snd (load_uploaded_file f)
      = Returned (None, "❌ Missing columns: quality"%string)).
Proof.
  intros Hp. destruct (load_uploaded_file_parsed f df Hp) as [read [_ Heq]].
  split; [reflexivity |].
  split; [intros c; apply missing_In |].
  split.
  { unfold missing. apply NoDup_filter.
    repeat constructor; cbn [In]; intuition discriminate. }
  split; [apply missing_nil_iff |].
  split; [| split].
  - intros Hincl. apply missing_nil_iff in Hincl.
    rewrite Heq. cbn [snd]. now rewrite (check_and_convert_complete df Hincl).
  - intros Hnincl. rewrite Heq. cbn [snd].
    rewrite check_and_convert_missing; [reflexivity |].
    intros Hnil. apply Hnincl. now apply missing_nil_iff.
  - intros Hcols. pose proof (only_quality_missing _ Hcols) as Hq.
    rewrite Heq. cbn [snd].
    rewrite check_and_convert_missing by (rewrite Hq; discriminate).
    now rewrite Hq.
Qed.

(** C10. For every uploaded file with a recognised extension that parses
    to a frame without a [date] column, the loader hands back no frame and
    the missing-columns message, [date] is among the columns it lists, and
    the date conversion is never called. *)
Theorem columns_checked_before_dates (f : UploadedFile) (df : Frame) :
  parsed f = Some (inr df) ->
  ~ In "date"%string (columns df) ->
  snd (load_uploaded_file f)
  = Returned (None, missing_message (missing (columns df)))
  /\ In "date"%string (missing (columns df))
  /\ ~ In ToDatetime (fst (load_uploaded_file f)).
Proof.
  intros Hp Hdate.
  assert (Hm : In "date"%string (missing (columns df))).
  { apply missing_In. split; [now left | exact Hdate]. }
  assert (Hne : missing (columns df) <> []).
  { intros Hnil. rewrite Hnil in Hm. destruct Hm. }
  split; [| split].
  - destruct (load_uploaded_file_parsed f df Hp) as [read [_ ->]]. cbn [snd].
    now rewrite check_and_convert_missing.
  - exact Hm.
  - rewrite (to_datetime_reached_iff f df Hp). exact Hne.
Qed.

(** The loader itself never calls [st.stop()]. *)
Lemma check_and_convert_never_stops (df : Frame) :
  snd (check_and_convert df) <> Stopped.
Proof.
  unfold check_and_convert.
  destruct (missing (columns df)); [| discriminate].
  unfold bind, call. cbn [snd fst].
  destruct (to_datetime_date df); discriminate.
Qed.

Lemma load_uploaded_file_never_stops (f : UploadedFile) :
  snd (load_uploaded_file f) <> Stopped.
Proof.
  unfold load_uploaded_file.
  destruct (endswith (name f) ".csv").
  - unfold bind at 1, call. cbn [snd fst].
    destruct (read_csv (content f)); [discriminate |].
    cbn [snd]. apply check_and_convert_never_stops.
  - destruct (endswith (name f) ".xlsx" || endswith (name f) ".xls");
      [| discriminate].
    unfold bind at 1, call. cbn [snd fst].
    destruct (read_excel (content f)); [discriminate |].
    cbn [snd]. apply check_and_convert_never_stops.
Qed.

(** What a rejected upload does to the run (lines 92-96). *)
Lemma load_stage_rejected (f : UploadedFile) (disk : option string) :
  rejected f ->
  (exists message,
      snd (load_uploaded_file f) = Returned (None, message) /\
      load_stage (Some f) disk
      = (fst (load_uploaded_file f) ++ [SidebarError message], Stopped))
  \/ (exists e,
      snd (load_uploaded_file f) = Raised e /\
      load_stage (Some f) disk = (fst (load_uploaded_file f), Raised e))
  \/ (snd (load_uploaded_file f) = Stopped).
Proof.
  unfold rejected, load_stage, bind.
  destruct (load_uploaded_file f) as [t [[[df |] message] | e |]]; cbn [fst snd].
  - intros [].
  - intros _. left. exists message. split; reflexivity.
  - intros _. right. left. exists e. split; reflexivity.
  - intros _. right. right. reflexivity.
Qed.

(** C8, amended.  For every load-time error of an uploaded file the file
    is not adopted and the script goes no further in that run: after an
    unsupported extension or missing columns it shows the loader's message
    and stops, and a failing parse or date conversion leaves it as an
    exception the script does not catch.  In each case the run has no
    table, whatever table the run before it had, and an unsupported
    extension is reported without reading the file. *)
Theorem load_error_stops_run (s : Session) (f : UploadedFile) (disk : option string) :
  rejected f ->
  active (rerun s (Some f) disk) = None
  /\ ((exists message,
         snd (load_uploaded_file f) = Returned (None, message) /\
         load_stage (Some f) disk
         = (fst (load_uploaded_file f) ++ [SidebarError message], Stopped))
      \/ exists e,
         snd (load_uploaded_file f) = Raised e /\
         load_stage (Some f) disk = (fst (load_uploaded_file f), Raised e))
  /\ (parsed f = None ->
      load_stage (Some f) disk = ([SidebarError unsupported_message], Stopped)).
Proof.
  intros Hrej. split; [| split].
  - unfold rerun, active_table. cbn [active].
    destruct (load_stage_rejected f disk Hrej)
      as [[message [_ ->]] | [[e [_ ->]] | Hstop]]; try reflexivity.
    unfold load_stage, bind. rewrite Hstop. reflexivity.
  - destruct (load_stage_rejected f disk Hrej) as [Hm | [He | Hstop]]; auto.
    exfalso. now apply (load_uploaded_file_never_stops f).
  - unfold parsed, load_stage, load_uploaded_file.
    destruct (endswith (name f) ".csv"); [discriminate |].
    destruct (endswith (name f) ".xlsx" || endswith (name f) ".xls");
      [discriminate | reflexivity].
Qed.

End LoaderFacts.

Section LoaderRuns.

Import Loader.

Lemma schema_validation_witness :
  parsed Scenario.no_quality_file
  = Some (inr {| header := split_commas (content Scenario.no_quality_file);
                 dates_parse := true |}) /\
  snd (load_uploaded_file (Frame := Header) Scenario.no_quality_file)
  = Returned (None, "❌ Missing columns: quality"%string).
Proof.
  split; [reflexivity |].
  refine (proj2 (proj2 (proj2 (proj2 (proj2 (proj2
    (schema_validation Scenario.no_quality_file _ eq_refl)))))) _).
  intros c Hc. cbn in Hc.
  repeat (destruct Hc as [<- | Hc]; [cbn; intuition (try discriminate; auto 20) |]).
  destruct Hc.
Defined.

Lemma columns_checked_before_dates_witness :
  parsed Scenario.no_date_file
  = Some (inr {| header := split_commas "machine,shift,planned_time_min,downtime_min,run_time_min,availability,performance,quality,oee,total_parts,good_parts";
                 dates_parse := false |}) /\
  ~ In ToDatetime (fst (load_uploaded_file (Frame := Header) Scenario.no_date_file)).
Proof.
  split; [reflexivity |].
  refine (proj2 (proj2
    (columns_checked_before_dates Scenario.no_date_file _ eq_refl _))).
  cbn. intuition discriminate.
Defined.

(** C8, as stated, fails: a session that shows the table of a good file
    and is then given a file with an unsupported extension has no table
    left in the next run. *)
Lemma previous_table_kept_refuted :
  ~ forall (s : Session (Frame := Header)) (f : UploadedFile) (disk : option string),
      rejected (Frame := Header) f ->
      active (rerun s (Some f) disk) = active s.
Proof.
  intros Hall.
  specialize (Hall Scenario.showing_june Scenario.text_file None I).
  discriminate Hall.
Qed.

Lemma load_error_stops_run_witness :
  rejected (Frame := Header) Scenario.bad_dates_file /\
  active (rerun Scenario.showing_june (Some Scenario.bad_dates_file) None) = None.
Proof.
  split; [exact I |].
  exact (proj1 (load_error_stops_run Scenario.showing_june
                  Scenario.bad_dates_file None I)).
Defined.

(** The three load-time errors on concrete files. *)
Example unsupported_extension_run :
  load_stage (Frame := Header) (Some Scenario.text_file) None
  = ([SidebarError unsupported_message], Stopped).
Proof. reflexivity. Qed.

Example missing_columns_run :
  load_stage (Frame := Header) (Some Scenario.no_quality_file) None
  = ([ReadExcel; SidebarError "❌ Missing columns: quality"], Stopped).
Proof. reflexivity. Qed.

Example malformed_dates_run :
  load_stage (Frame := Header) (Some Scenario.bad_dates_file) None
  = ([ReadCsv; ToDatetime], Raised (ValueError "Unknown datetime string format")).
Proof. reflexivity. Qed.

Example good_file_run :
  load_stage (Frame := Header) (Some Scenario.good_file) None
  = ([ReadCsv; ToDatetime; SidebarSuccess loaded_message],
     Returned (Scenario.june, "📂 june.csv"%string)).
Proof. reflexivity. Qed.

End LoaderRuns.

(** * Further properties of the script *)

(** ** Sidebar options and the filter *)

Section FilterMore.

Import Filter.

Lemma unique_NoDup (s : list string) : NoDup (Series.unique s).
Proof.
  induction s as [| x s IH]; cbn [Series.unique]; constructor.
  - rewrite filter_In, negb_true_iff, String.eqb_refl. intros [_ Habs]. discriminate.
  - now apply NoDup_filter.
Qed.

Lemma filter_app_one {A : Type} (p : A -> bool) (l : list A) (x : A) :
  filter p (l ++ [x]) = filter p l ++ (if p x then [x] else []).
Proof. rewrite filter_app. reflexivity. Qed.

Lemma unique_snoc (s : list string) (x : string) :
  Series.unique (s ++ [x])
  = if existsb (String.eqb x) s then Series.unique s else Series.unique s ++ [x].
Proof.
  induction s as [| y s IH]; [reflexivity |].
  cbn [app Series.unique existsb]. rewrite IH.
  destruct (existsb (String.eqb x) s) eqn:Hin.
  - now rewrite orb_true_r.
  - rewrite orb_false_r, filter_app_one. rewrite (String.eqb_sym x y).
    destruct (String.eqb y x); cbn [negb app]; [now rewrite app_nil_r | reflexivity].
Qed.

(** X1. The options of the machine filter are the machines of the table,
    each once, in the order in which they first appear: a further row adds
    its machine at the end if it is new and changes nothing otherwise.  The
    same holds for the shift filter. *)
Theorem filter_options_first_appearance (df : DataFrame) (r : Row) :
  NoDup (all_machines df)
  /\ (forall m, In m (all_machines df) <-> exists r', In r' df /\ machine r' = m)
  /\ all_machines (df ++ [r])
     = (if existsb (String.eqb (machine r)) (col machine df)
        then all_machines df else all_machines df ++ [machine r])
  /\ NoDup (all_shifts df)
  /\ (forall s, In s (all_shifts df) <-> exists r', In r' df /\ shift r' = s)
  /\ all_shifts (df ++ [r])
     = (if existsb (String.eqb (shift r)) (col shift df)
        then all_shifts df else all_shifts df ++ [shift r]).
Proof.
  unfold all_machines, all_shifts, col.
  repeat match goal with |- _ /\ _ => split end.
  - apply unique_NoDup.
  - intros m. rewrite unique_In, in_map_iff. split; intros [r' [H1 H2]]; eauto.
  - rewrite map_app. apply unique_snoc.
  - apply unique_NoDup.
  - intros s. rewrite unique_In, in_map_iff. split; intros [r' [H1 H2]]; eauto.
  - rewrite map_app. apply unique_snoc.
Qed.

Lemma min_le_max_date df lo hi :
  min_date df = Some lo -> max_date df = Some hi -> lo <= hi.
Proof.
  destruct df as [| r df]; [discriminate |]. intros Hlo Hhi.
  pose proof (min_date_le (r :: df) lo r Hlo (or_introl eq_refl)).
  pose proof (max_date_ge (r :: df) hi r Hhi (or_introl eq_refl)). lia.
Qed.

(** X2. Whatever the time of day of the records, the selection the sidebar
    starts from (all machines, all shifts, the default date range) keeps
    exactly the rows dated up to midnight of the latest day; rows are never
    lost at the early end, and the default range is never reversed. *)
Theorem default_selection_keeps_until_midnight (df : DataFrame) (lo hi : Z) :
  date_input_default df = Some (lo, hi) ->
  filtered_df df (all_machines df) (all_shifts df) lo hi
  = filter (fun r => date r <=? Timestamp hi) df
  /\ lo <= hi
  /\ forall r, In r df -> lo <= to_pydate (date r) <= hi.
Proof.
  unfold date_input_default.
  destruct (min_date df) as [lo' |] eqn:Hlo; [| discriminate].
  destruct (max_date df) as [hi' |] eqn:Hhi; [| discriminate].
  intros [= <- <-]. pose proof ns_per_day_pos as Hpos.
  assert (Hdays : forall r, In r df -> to_pydate lo' <= to_pydate (date r) <= to_pydate hi').
  { intros r Hr. pose proof (min_date_le df lo' r Hlo Hr).
    pose proof (max_date_ge df hi' r Hhi Hr).
    unfold to_pydate. split; apply Z.div_le_mono; lia. }
  split; [| split].
  - rewrite filtered_df_filter. apply filter_ext_in. intros r Hr. unfold keep.
    assert (Hm : existsb (String.eqb (machine r)) (all_machines df) = true).
    { apply existsb_eqb_In. unfold all_machines. rewrite unique_In.
      unfold col. now apply in_map. }
    assert (Hs : existsb (String.eqb (shift r)) (all_shifts df) = true).
    { apply existsb_eqb_In. unfold all_shifts. rewrite unique_In.
      unfold col. now apply in_map. }
    assert (Hl : (Timestamp (to_pydate lo') <=? date r) = true).
    { apply Z.leb_le. pose proof (Timestamp_to_pydate_le lo').
      pose proof (min_date_le df lo' r Hlo Hr). lia. }
    now rewrite Hm, Hs, Hl.
  - unfold to_pydate. apply Z.div_le_mono; [lia |].
    now apply (min_le_max_date df).
  - exact Hdays.
Qed.

Lemma default_selection_keeps_until_midnight_witness :
  date_input_default Scenario.intraday = Some (5, 5) /\
  filtered_df Scenario.intraday (all_machines Scenario.intraday)
              (all_shifts Scenario.intraday) 5 5
  = filter (fun r => date r <=? Timestamp 5) Scenario.intraday.
Proof.
  split; [reflexivity |].
  exact (proj1 (default_selection_keeps_until_midnight Scenario.intraday 5 5 eq_refl)).
Defined.

Lemma filter_filter_keep (p q : Row -> bool) (df : DataFrame) :
  (forall r, In r df -> q r = true -> p r = true) ->
  filter q (filter p df) = filter q df.
Proof.
  intros Himp. induction df as [| r df IH]; [reflexivity |].
  assert (IH' : filter q (filter p df) = filter q df).
  { apply IH. intros r' Hr'. apply Himp. now right. }
  cbn [filter]. destruct (p r) eqn:Hp.
  - cbn [filter]. now rewrite IH'.
  - destruct (q r) eqn:Hq; [| exact IH'].
    rewrite (Himp r (or_introl eq_refl) Hq) in Hp. discriminate.
Qed.

(** X3. Narrowing a selection can be done in steps: filtering an already
    filtered table with a selection contained in the first one (fewer
    machines, fewer shifts, a range inside the range) gives the same rows
    as applying the narrower selection to the whole table.  In particular
    applying the same selection twice changes nothing, and a filtered table
    never has more rows than the table. *)
Theorem filter_narrowing (df : DataFrame) (M M' S S' : list string) (s e s' e' : Z) :
  incl M M' -> incl S S' -> s' <= s -> e <= e' ->
  filtered_df (filtered_df df M' S' s' e') M S s e = filtered_df df M S s e
  /\ filtered_df (filtered_df df M S s e) M S s e = filtered_df df M S s e
  /\ (List.length (filtered_df df M S s e) <= List.length df)%nat.
Proof.
  intros HM HS Hs He. rewrite !filtered_df_filter.
  assert (Hstep : forall A B a b A' B' a' b',
             incl A A' -> incl B B' -> a' <= a -> b <= b' ->
             filter (keep A B a b) (filter (keep A' B' a' b') df)
             = filter (keep A B a b) df).
  { intros A B a b A' B' a' b' HA HB Ha Hb. apply filter_filter_keep.
    intros r _ Hk. apply keep_matches in Hk. apply keep_matches.
    unfold matches, Timestamp in *. pose proof ns_per_day_pos.
    destruct Hk as [H1 [H2 [H3 H4]]].
    repeat split; [now apply HA | now apply HB | nia | nia]. }
  split; [| split].
  - now apply Hstep.
  - apply Hstep; try apply incl_refl; lia.
  - apply filter_length_le.
Qed.

Lemma filter_narrowing_witness :
  incl ["M1"%string] ["M1"; "M2"]%string /\
  filtered_df (filtered_df Scenario.two_machines ["M1"; "M2"]%string ["A"%string] 1 3)
              ["M1"%string] ["A"%string] 2 3
  = filtered_df Scenario.two_machines ["M1"%string] ["A"%string] 2 3.
Proof.
  assert (H1 : incl ["M1"%string] ["M1"; "M2"]%string).
  { intros x [<- | []]. now left. }
  split; [exact H1 |].
  refine (proj1 (filter_narrowing Scenario.two_machines
                   ["M1"%string] ["M1"; "M2"]%string ["A"%string] ["A"%string]
                   2 3 1 3 H1 (incl_refl _) _ _)); lia.
Defined.

(** X4. A date range whose end lies before its start selects nothing,
    whatever the machines and shifts. *)
Theorem reversed_range_selects_nothing (df : DataFrame) (M S : list string)
    (start_date end_date : Z) :
  end_date < start_date ->
  filtered_df df M S start_date end_date = [].
Proof.
  intros Hrev. rewrite filtered_df_filter.
  induction df as [| r df IH]; [reflexivity |].
  cbn [filter]. rewrite IH.
  destruct (keep M S start_date end_date r) eqn:Hk; [| reflexivity].
  apply keep_matches in Hk. unfold matches, Timestamp in Hk.
  pose proof ns_per_day_pos. nia.
Qed.

Lemma reversed_range_selects_nothing_witness :
  3 < 5 /\
  filtered_df Scenario.two_machines ["M1"; "M2"]%string ["A"%string] 5 3 = [].
Proof.
  split; [lia |].
  apply (reversed_range_selects_nothing Scenario.two_machines). lia.
Defined.

End FilterMore.

(** ** KPI cards *)

Section KpiMore.

Import Aggregator.

Lemma sumQ_bounds (s : list Q) (lo hi : Q) :
  (forall x, In x s -> lo <= x <= hi)%Q ->
  (inject_Z (Z.of_nat (List.length s)) * lo <= Series.sumQ s
   /\ Series.sumQ s <= inject_Z (Z.of_nat (List.length s)) * hi)%Q.
Proof.
  induction s as [| x s IH]; intros Hall.
  - cbn. split; rewrite Qmult_0_l; apply Qle_refl.
  - destruct (Hall x (or_introl eq_refl)) as [Hlo Hhi].
    destruct IH as [IHlo IHhi]; [intros y Hy; apply Hall; now right |].
    cbn [List.length Series.sumQ fold_right]. fold (Series.sumQ s).
    rewrite Nat2Z.inj_succ. unfold Z.succ. rewrite inject_Z_plus.
    set (n := inject_Z (Z.of_nat (List.length s))) in *.
    split.
    + setoid_replace ((n + inject_Z 1) * lo)%Q with (lo + n * lo)%Q by ring.
      now apply Qplus_le_compat.
    + setoid_replace ((n + inject_Z 1) * hi)%Q with (hi + n * hi)%Q by ring.
      now apply Qplus_le_compat.
Qed.

Lemma mean_bounds (s : list Q) (lo hi : Q) :
  s <> [] ->
  (forall x, In x s -> lo <= x <= hi)%Q ->
  exists q, Series.mean s = Fin q /\ (lo <= q <= hi)%Q.
Proof.
  intros Hne Hall. destruct (sumQ_bounds s lo hi Hall) as [Hlo Hhi].
  unfold Series.mean, num_div, num_of_Z.
  assert (Hn : 0 < Z.of_nat (List.length s)) by (destruct s; [congruence | cbn; lia]).
  assert (Hn0 : Z.of_nat (List.length s) <> 0) by lia.
  rewrite (Qeq_bool_inject_Z _ Hn0).
  eexists. split; [reflexivity |].
  assert (Hpos : (0 < inject_Z (Z.of_nat (List.length s)))%Q).
  { change 0%Q with (inject_Z 0). now rewrite <- Zlt_Qlt. }
  rewrite Qred_correct. split.
  - apply Qle_shift_div_l; [exact Hpos |]. now rewrite Qmult_comm.
  - apply Qle_shift_div_r; [exact Hpos |]. now rewrite Qmult_comm.
Qed.

Lemma col_bounds (c : Row -> Q) (df : DataFrame) (lo hi : Q) :
  (forall r, In r df -> lo <= c r <= hi)%Q ->
  forall x, In x (col c df) -> (lo <= x <= hi)%Q.
Proof.
  intros Hall x Hx. unfold col in Hx. apply in_map_iff in Hx.
  destruct Hx as [r [<- Hr]]. now apply Hall.
Qed.

Lemma col_nonempty {A : Type} (c : Row -> A) (df : DataFrame) :
  df <> [] -> col c df <> [].
Proof. destruct df; [congruence | discriminate]. Qed.

(** X5. On a non-empty filtered table whose four rate columns lie between
    0 and 1, each of the four KPI means is a number between 0 and 1, so
    the cards and the gauge stay between 0 and 100 percent. *)
Theorem kpi_means_within_rates (df : DataFrame) :
  df <> [] ->
  (forall r, In r df ->
     0 <= oee r <= 1 /\ 0 <= availability r <= 1 /\
     0 <= performance r <= 1 /\ 0 <= quality r <= 1)%Q ->
  (exists q, avg_oee (kpis df) = Fin q /\ 0 <= q <= 1)%Q
  /\ (exists q, avg_availability (kpis df) = Fin q /\ 0 <= q <= 1)%Q
  /\ (exists q, avg_performance (kpis df) = Fin q /\ 0 <= q <= 1)%Q
  /\ (exists q, avg_quality (kpis df) = Fin q /\ 0 <= q <= 1)%Q.
Proof.
  intros Hne Hall. cbn [kpis avg_oee avg_availability avg_performance avg_quality].
  repeat match goal with |- _ /\ _ => split end;
    (apply mean_bounds; [now apply col_nonempty | apply col_bounds]);
    intros r Hr; apply (Hall r Hr).
Qed.

Lemma two_machines_rates :
  forall r, In r Scenario.two_machines ->
    (0 <= oee r <= 1 /\ 0 <= availability r <= 1 /\
     0 <= performance r <= 1 /\ 0 <= quality r <= 1)%Q.
Proof.
  intros r Hr. cbn in Hr.
  repeat (destruct Hr as [<- | Hr];
          [cbn; repeat split; discriminate |]).
  destruct Hr.
Qed.

Lemma kpi_means_within_rates_witness :
  Scenario.two_machines <> [] /\
  (exists q, avg_oee (kpis Scenario.two_machines) = Fin q /\ 0 <= q <= 1)%Q.
Proof.
  assert (Hne : Scenario.two_machines <> []) by discriminate.
  split; [exact Hne |].
  exact (proj1 (kpi_means_within_rates Scenario.two_machines Hne two_machines_rates)).
Defined.

Lemma format_percent1_nan_only (x : num) :
  format_percent1 x = "nan%"%string -> x = NaN.
Proof.
  destruct x as [q | | |]; try discriminate; [| reflexivity].
  unfold format_percent1, digits.
  destruct (Qle_bool 0 q);
    destruct (N.to_uint (Z.to_N (Z.abs (round_half_even (q * 1000)) / 10)));
    cbn; discriminate.
Qed.

Lemma mean_finite (s : list Q) : s <> [] -> exists q, Series.mean s = Fin q.
Proof. intros Hne. destruct (mean_is_mean s Hne) as [_ [q [Hq _]]]. eauto. Qed.

(** X6. The text nan% on a KPI card comes from an empty table only: on a
    non-empty filtered table none of the four cards shows it, and the
    format gives it for NaN alone. *)
Theorem nan_card_only_when_empty (df : DataFrame) :
  df <> [] ->
  format_percent1 (avg_oee (kpis df)) <> "nan%"%string
  /\ format_percent1 (avg_availability (kpis df)) <> "nan%"%string
  /\ format_percent1 (avg_performance (kpis df)) <> "nan%"%string
  /\ format_percent1 (avg_quality (kpis df)) <> "nan%"%string
  /\ forall x, format_percent1 x = "nan%"%string <-> x = NaN.
Proof.
  intros Hne. cbn [kpis avg_oee avg_availability avg_performance avg_quality].
  assert (Hfin : forall c : Row -> Q,
             format_percent1 (Series.mean (col c df)) <> "nan%"%string).
  { intros c Hf. apply format_percent1_nan_only in Hf.
    destruct (mean_finite (col c df) (col_nonempty c df Hne)) as [q Hq].
    congruence. }
  repeat split; try apply Hfin.
  - apply format_percent1_nan_only.
  - intros ->. reflexivity.
Qed.

Lemma nan_card_only_when_empty_witness :
  Scenario.two_machines <> [] /\
  format_percent1 (avg_oee (kpis Scenario.two_machines)) <> "nan%"%string.
Proof.
  assert (Hne : Scenario.two_machines <> []) by discriminate.
  split; [exact Hne |].
  exact (proj1 (nan_card_only_when_empty Scenario.two_machines Hne)).
Defined.

End KpiMore.

(** ** Trend, shift comparison and summary table *)

Section ChartFacts.

Import Aggregator Charts.

Lemma insert_date_In (d x : Z) (ds : list Z) :
  In x (insert_date d ds) <-> x = d \/ In x ds.
Proof.
  induction ds as [| h t IH]; cbn [insert_date In].
  - intuition.
  - destruct (Z.compare_spec d h) as [-> | Hlt | Hgt]; cbn [In].
    + intuition.
    + intuition.
    + rewrite IH. intuition.
Qed.

Lemma insert_date_sorted (d : Z) (ds : list Z) :
  StronglySorted Z.lt ds -> StronglySorted Z.lt (insert_date d ds).
Proof.
  induction 1 as [| h t Hs IH Hall]; cbn [insert_date].
  - repeat constructor.
  - destruct (Z.compare_spec d h) as [-> | Hlt | Hgt].
    + now constructor.
    + constructor; [now constructor |].
      constructor; [assumption |].
      rewrite Forall_forall in *. intros y Hy. specialize (Hall y Hy). lia.
    + constructor; [assumption |].
      rewrite Forall_forall in *. intros y Hy.
      apply insert_date_In in Hy. destruct Hy as [-> | Hy]; [lia | auto].
Qed.

Lemma date_keys_In (d : Z) (s : list Z) : In d (date_keys s) <-> In d s.
Proof.
  unfold date_keys. induction s as [| x s IH]; cbn [fold_right In]; [tauto |].
  rewrite insert_date_In, IH. intuition.
Qed.

Lemma date_keys_sorted (s : list Z) : StronglySorted Z.lt (date_keys s).
Proof.
  unfold date_keys. induction s as [| x s IH]; cbn [fold_right].
  - constructor.
  - now apply insert_date_sorted.
Qed.

Lemma ascending_NoDup (l : list Z) : StronglySorted Z.lt l -> NoDup l.
Proof.
  induction 1 as [| a l Hs IH Ha]; constructor; [| assumption].
  rewrite Forall_forall in Ha. intros Hina. specialize (Ha a Hina). lia.
Qed.

Lemma oee_trend_eq df :
  oee_trend df
  = map (fun d => (d, Series.mean (col oee (rows_on_date d df))))
        (date_keys (col date df)).
Proof. unfold oee_trend, groupby_date. now rewrite map_map. Qed.

(** X7. The OEE trend has one point per distinct value of the date column,
    in strictly ascending order of the date, and the value of a point is
    the arithmetic mean of [oee] over the rows carrying exactly that date
    (records of one day with different times of day make different
    points). *)
Theorem oee_trend_by_date (df : DataFrame) :
  StronglySorted Z.lt (map fst (oee_trend df))
  /\ (forall d, In d (map fst (oee_trend df)) <-> exists r, In r df /\ date r = d)
  /\ (forall d x, In (d, x) (oee_trend df) ->
        is_mean_of x (col oee (rows_on_date d df)))
  /\ (List.length (oee_trend df) <= List.length df)%nat.
Proof.
  assert (Hkeys : map fst (oee_trend df) = date_keys (col date df)).
  { rewrite oee_trend_eq, map_map. cbn [fst]. apply map_id. }
  assert (Hin : forall d, In d (date_keys (col date df)) <->
                          exists r, In r df /\ date r = d).
  { intros d. rewrite date_keys_In. unfold col. rewrite in_map_iff.
    split; intros [r [H1 H2]]; eauto. }
  split; [| split; [| split]].
  - rewrite Hkeys. apply date_keys_sorted.
  - intros d. rewrite Hkeys. apply Hin.
  - intros d x Hx. rewrite oee_trend_eq in Hx. apply in_map_iff in Hx.
    destruct Hx as [d' [[= -> <-] Hd]]. apply Hin in Hd.
    destruct Hd as [r [Hr Hd]]. apply mean_is_mean. intros Hnil.
    assert (Hr' : In r (rows_on_date d df)).
    { apply filter_In. split; [exact Hr | now apply Z.eqb_eq]. }
    unfold col in Hnil. apply map_eq_nil in Hnil. rewrite Hnil in Hr'. destruct Hr'.
  - rewrite <- (length_map fst), Hkeys.
    pose proof (NoDup_incl_length
                  (l := date_keys (col date df)) (l' := col date df)) as Hlen.
    unfold col in *. rewrite length_map in Hlen. apply Hlen.
    + apply ascending_NoDup, date_keys_sorted.
    + intros d Hd. now apply date_keys_In.
Qed.

Lemma shift_oee_eq df :
  shift_oee df =
  map (fun k =>
         {| sm_shift := k;
            sm_oee := Series.mean (col oee (rows_of_shift k df));
            sm_availability := Series.mean (col availability (rows_of_shift k df));
            sm_performance := Series.mean (col performance (rows_of_shift k df));
            sm_quality := Series.mean (col quality (rows_of_shift k df)) |})
      (group_keys (col (fun r => Some (shift r)) df)).
Proof. unfold shift_oee, groupby. now rewrite map_map. Qed.

Lemma shift_keys_In df s :
  In s (group_keys (col (fun r => Some (shift r)) df)) <-> In s (col shift df).
Proof.
  rewrite group_keys_In. unfold col. rewrite !in_map_iff. split.
  - intros [r [[= <-] Hr]]. eauto.
  - intros [r [<- Hr]]. eauto.
Qed.

(** X8. The shift comparison has one entry per shift of the filtered table,
    in ascending order of the label, and each entry holds the arithmetic
    means of [oee], [availability], [performance] and [quality] over the
    rows of that shift. *)
Theorem shift_oee_means (df : DataFrame) :
  StronglySorted String_as_OT.lt (map sm_shift (shift_oee df))
  /\ (forall s, In s (map sm_shift (shift_oee df)) <-> In s (col shift df))
  /\ (forall e, In e (shift_oee df) ->
        is_mean_of (sm_oee e) (col oee (rows_of_shift (sm_shift e) df)) /\
        is_mean_of (sm_availability e)
                   (col availability (rows_of_shift (sm_shift e) df)) /\
        is_mean_of (sm_performance e)
                   (col performance (rows_of_shift (sm_shift e) df)) /\
        is_mean_of (sm_quality e) (col quality (rows_of_shift (sm_shift e) df))).
Proof.
  assert (Hkeys : map sm_shift (shift_oee df)
                  = group_keys (col (fun r => Some (shift r)) df)).
  { rewrite shift_oee_eq, map_map. cbn [sm_shift]. apply map_id. }
  split; [| split].
  - rewrite Hkeys. apply group_keys_sorted.
  - intros s. rewrite Hkeys. apply shift_keys_In.
  - intros e He. rewrite shift_oee_eq in He. apply in_map_iff in He.
    destruct He as [k [<- Hk]].
    cbn [sm_shift sm_oee sm_availability sm_performance sm_quality].
    apply shift_keys_In in Hk. unfold col in Hk. apply in_map_iff in Hk.
    destruct Hk as [r [Hr Hin]].
    assert (Hrows : rows_of_shift k df <> []).
    { intros Hnil. assert (Hr' : In r (rows_of_shift k df)).
      { apply filter_In. split; [exact Hin |]. now apply String.eqb_eq. }
      rewrite Hnil in Hr'. destruct Hr'. }
    repeat split; try (apply col_nonempty, Hrows);
      apply (proj2 (mean_is_mean _ (col_nonempty _ _ Hrows))).
Qed.

(** Every row falls in exactly one group of a duplicate-free key list that
    covers the table, so sums over the groups add up to the sum over the
    rows that have a key. *)
Lemma groups_partition_sum (key : Row -> option string) (f : Row -> Z)
    (ks : list string) (df : DataFrame) :
  NoDup ks ->
  (forall r k, In r df -> key r = Some k -> In k ks) ->
  Series.sum (map (fun k => Series.sum (col f (filter (has_key key k) df))) ks)
  = Series.sum (map (fun r => match key r with Some _ => f r | None => 0 end) df).
Proof.
  intros Hnd. revert df. induction Hnd as [| k ks Hnin Hnd IH]; intros df Hcov.
  - cbn [map]. symmetry. apply sum_all_zero. intros x Hx.
    apply in_map_iff in Hx. destruct Hx as [r [<- Hr]].
    destruct (key r) as [k |] eqn:Hk; [| reflexivity].
    destruct (Hcov r k Hr Hk).
  - cbn [map]. rewrite sum_cons.
    assert (Hsplit : forall l,
      Series.sum (map (fun r => match key r with Some _ => f r | None => 0 end) l)
      = Series.sum (col f (filter (has_key key k) l))
        + Series.sum (map (fun r => match key r with Some _ => f r | None => 0 end)
                          (filter (fun r => negb (has_key key k r)) l))).
    { induction l as [| r l IHl]; [reflexivity |].
      cbn [map filter]. rewrite sum_cons, IHl.
      destruct (has_key key k r) eqn:Hkr; cbn [negb].
      - unfold col. cbn [map]. rewrite sum_cons.
        unfold has_key in Hkr. destruct (key r); [lia | discriminate].
      - cbn [map]. rewrite sum_cons. lia. }
    rewrite (Hsplit df). f_equal.
    rewrite <- (IH (filter (fun r => negb (has_key key k r)) df)).
    + f_equal. apply map_ext_in. intros k' Hk'. f_equal. f_equal.
      clear - Hnin Hk'. induction df as [| r df IHdf]; [reflexivity |].
      cbn [filter]. destruct (has_key key k r) eqn:Hkr; cbn [negb filter].
      * rewrite <- IHdf. unfold has_key in *.
        destruct (key r) as [kr |]; [| reflexivity].
        apply String.eqb_eq in Hkr. subst kr.
        destruct (String.eqb_spec k k') as [-> | _]; [contradiction | reflexivity].
      * destruct (has_key key k' r); now rewrite IHdf.
    + intros r k' Hr Hk'. apply filter_In in Hr. destruct Hr as [Hr Hneg].
      destruct (Hcov r k' Hr Hk') as [<- | Hin]; [| exact Hin].
      unfold has_key in Hneg. rewrite Hk', String.eqb_refl in Hneg. discriminate.
Qed.

Lemma machine_groups_total (f : Row -> Z) (df : DataFrame) :
  Series.sum (map (fun g => Series.sum (col f (snd g)))
                  (groupby (fun r => Some (machine r)) df))
  = Series.sum (col f df).
Proof.
  unfold groupby. rewrite map_map. cbn [snd].
  rewrite (groups_partition_sum (fun r => Some (machine r)) f).
  - reflexivity.
  - apply strictly_sorted_NoDup, group_keys_sorted.
  - intros r k Hr [= <-]. apply group_keys_In. unfold col.
    apply in_map_iff. eauto.
Qed.

(** X9. The summary table has one row per machine of the filtered table,
    and its two total columns add up to the KPI cards: the per-machine
    downtime totals sum to the total downtime, and the per-machine good
    parts sum to the total of good parts. *)
Theorem summary_totals_match_kpis (df : DataFrame) :
  StronglySorted String_as_OT.lt (map summary_machine (summary_table df))
  /\ (forall m, In m (map summary_machine (summary_table df)) <-> In m (col machine df))
  /\ Series.sum (map Total_Downtime_min (summary_table df)) = total_downtime (kpis df)
  /\ Series.sum (map Total_Good_Parts (summary_table df)) = total_good_parts (kpis df).
Proof.
  assert (Hkeys : map summary_machine (summary_table df)
                  = group_keys (col (fun r => Some (machine r)) df)).
  { unfold summary_table, groupby. rewrite !map_map. cbn [summary_machine fst].
    apply map_id. }
  split; [| split; [| split]].
  - rewrite Hkeys. apply group_keys_sorted.
  - intros m. rewrite Hkeys. apply machine_keys_In.
  - unfold summary_table. rewrite map_map. cbn [Total_Downtime_min].
    apply machine_groups_total.
  - unfold summary_table. rewrite map_map. cbn [Total_Good_Parts].
    apply machine_groups_total.
Qed.

Lemma round_half_even_close (x : Q) :
  (Qabs (inject_Z (round_half_even x) - x) <= 1 # 2)%Q.
Proof.
  destruct x as [n d]. unfold round_half_even. cbn [Qnum Qden].
  pose proof (Z.div_mod n (Zpos d) ltac:(lia)) as Hdm.
  pose proof (Z.mod_pos_bound n (Zpos d) ltac:(lia)) as Hr.
  set (f := n / Zpos d) in *. set (r := n mod Zpos d) in *.
  apply Qabs_Qle_condition.
  assert (Hcases : forall R,
             (R = f /\ 2 * r <= Zpos d) \/ (R = f + 1 /\ Zpos d <= 2 * r) ->
             (- (1 # 2) <= inject_Z R - (n # d) <= 1 # 2)%Q).
  { intros R HR. unfold Qle, Qminus, Qplus, Qopp, inject_Z. cbn.
    destruct HR as [[-> Hle] | [-> Hle]]; split; nia. }
  destruct (Z.compare_spec (2 * r) (Zpos d)) as [Heq | Hlt | Hgt].
  - destruct (Z.even f); apply Hcases; [left | right]; lia.
  - apply Hcases. left. lia.
  - apply Hcases. right. lia.
Qed.

Lemma round3_close (q : Q) : rounds_to_thousandth (Fin q) (round3 (Fin q)).
Proof.
  exists q. eexists. split; [reflexivity |]. split; [reflexivity |].
  rewrite Qred_correct.
  pose proof (round_half_even_close (q * 1000)) as Hc.
  apply Qabs_Qle_condition in Hc. apply Qabs_Qle_condition.
  set (y := inject_Z (round_half_even (q * 1000))) in *.
  destruct Hc as [H1 H2]. unfold Qdiv. change (/ 1000)%Q with (1 # 1000)%Q.
  split; lra.
Qed.

Lemma rounded_mean_close (s : list Q) :
  s <> [] -> rounds_to_thousandth (Series.mean s) (round3 (Series.mean s)).
Proof.
  intros Hne. destruct (mean_finite s Hne) as [q ->]. apply round3_close.
Qed.

(** X10. Each mean of the summary table is the corresponding mean of the
    machine comparison rounded to three decimals, and lies within half a
    thousandth of the exact mean over the rows of that machine. *)
Theorem summary_means_rounded (df : DataFrame) :
  map (fun row => (summary_machine row,
                   [Avg_OEE row; Avg_Availability row;
                    Avg_Performance row; Avg_Quality row]))
      (summary_table df)
  = map (fun e => (mm_machine e,
                   [round3 (mm_oee e); round3 (mm_availability e);
                    round3 (mm_performance e); round3 (mm_quality e)]))
        (machine_oee df)
  /\ forall row, In row (summary_table df) ->
       rounds_to_thousandth
         (Series.mean (col oee (rows_of_machine (summary_machine row) df)))
         (Avg_OEE row) /\
       rounds_to_thousandth
         (Series.mean (col availability (rows_of_machine (summary_machine row) df)))
         (Avg_Availability row) /\
       rounds_to_thousandth
         (Series.mean (col performance (rows_of_machine (summary_machine row) df)))
         (Avg_Performance row) /\
       rounds_to_thousandth
         (Series.mean (col quality (rows_of_machine (summary_machine row) df)))
         (Avg_Quality row).
Proof.
  split.
  - unfold summary_table, machine_oee. rewrite !map_map. reflexivity.
  - intros row Hrow. unfold summary_table, groupby in Hrow.
    rewrite map_map in Hrow. apply in_map_iff in Hrow.
    destruct Hrow as [k [<- Hk]].
    cbn [summary_machine Avg_OEE Avg_Availability Avg_Performance Avg_Quality fst snd].
    apply machine_keys_In in Hk. unfold col in Hk. apply in_map_iff in Hk.
    destruct Hk as [r [Hr Hin]].
    assert (Hrows : rows_of_machine k df <> []).
    { intros Hnil. assert (Hr' : In r (rows_of_machine k df)).
      { apply filter_In. split; [exact Hin |]. now apply String.eqb_eq. }
      rewrite Hnil in Hr'. destruct Hr'. }
    repeat split; apply rounded_mean_close, col_nonempty, Hrows.
Qed.

End ChartFacts.

(** ** Pareto: rows without a reason, and the range of the percentages *)

Section ParetoMore.

Import Aggregator.

Lemma labelled_plus_unlabelled (df : DataFrame) :
  Series.sum (map labelled_downtime df)
  + Series.sum (col downtime_min
                  (filter (fun r => match downtime_reason r with
                                    | None => true
                                    | Some _ => false
                                    end) df))
  = Series.sum (col downtime_min df).
Proof.
  unfold col. induction df as [| r df IH]; [reflexivity |].
  cbn [map filter]. rewrite !sum_cons. unfold labelled_downtime at 1.
  destruct (downtime_reason r); cbn [map]; rewrite ?sum_cons; lia.
Qed.

(** X11. Rows whose downtime reason is empty take no part in the Pareto:
    its entries are exactly the reasons that occur in the filtered table,
    and the downtime it adds up is the total downtime of the table less the
    downtime of the rows without a reason. *)
Theorem pareto_leaves_out_unlabelled (sort_values : sort_fn) (df : DataFrame) :
  sorts_descending sort_values ->
  (forall k, In k (map fst (pareto sort_values df)) <->
             exists r, In r df /\ downtime_reason r = Some k)
  /\ Series.sum (map snd (pareto sort_values df))
     + Series.sum (col downtime_min
                     (filter (fun r => match downtime_reason r with
                                       | None => true
                                       | Some _ => false
                                       end) df))
     = Series.sum (col downtime_min df).
Proof.
  intros Hsv. destruct (Hsv (pareto_sums df)) as [Hperm _]. split.
  - intros k. unfold pareto. split.
    + intros Hk. apply (Permutation_in _ (Permutation_map fst Hperm)) in Hk.
      rewrite pareto_sums_labels in Hk. apply group_keys_In in Hk.
      unfold col in Hk. apply in_map_iff in Hk. destruct Hk as [r [H1 H2]]. eauto.
    + intros [r [Hr Hk]].
      apply (Permutation_in _ (Permutation_sym (Permutation_map fst Hperm))).
      rewrite pareto_sums_labels. apply group_keys_In. unfold col.
      apply in_map_iff. eauto.
  - unfold pareto. rewrite (sum_Permutation _ _ (Permutation_map snd Hperm)).
    rewrite pareto_sums_total. apply labelled_plus_unlabelled.
Qed.

Lemma pareto_leaves_out_unlabelled_witness :
  sorts_descending stable_sort_values /\
  Series.sum (map snd (pareto stable_sort_values Scenario.three_reasons)) + 0
  = Series.sum (col downtime_min Scenario.three_reasons).
Proof.
  split; [exact stable_sort_values_sorts |].
  exact (proj2 (pareto_leaves_out_unlabelled stable_sort_values
                  Scenario.three_reasons stable_sort_values_sorts)).
Defined.

Lemma cumsum_from_le_total acc d :
  (forall x, In x d -> 0 <= x) ->
  Forall (fun c => c <= acc + Series.sum d) (Series.cumsum_from acc d).
Proof.
  revert acc. induction d as [| x d IH]; intros acc Hnn; cbn [Series.cumsum_from].
  - constructor.
  - assert (0 <= Series.sum d) by (apply sum_nonneg; intros; apply Hnn; now right).
    rewrite sum_cons. constructor; [lia |].
    eapply Forall_impl; [| apply (IH (acc + x)); intros; apply Hnn; now right].
    cbn. intros; lia.
Qed.

Lemma pct_zero (T : Z) : (Qred (Qred (inject_Z 0 / inject_Z T) * 100) == 0)%Q.
Proof. rewrite !Qred_correct. unfold Qdiv. ring. Qed.

(** X12. When the downtime is non-negative and the reasons carry some
    downtime, every cumulative percentage of the Pareto is a number between
    0 and 100, one per entry. *)
Theorem pareto_percentages_in_range (sort_values : sort_fn) (df : DataFrame) :
  sorts_descending sort_values ->
  (forall r, In r df -> 0 <= downtime_min r) ->
  0 < Series.sum (map snd (pareto sort_values df)) ->
  List.length (cumulative_pct (pareto sort_values df))
  = List.length (pareto sort_values df)
  /\ Forall (fun x => exists q, x = Fin q /\ (0 <= q <= 100)%Q)
            (cumulative_pct (pareto sort_values df)).
Proof.
  intros Hsv Hnn Hpos.
  set (p := pareto sort_values df) in *.
  set (T := Series.sum (map snd p)) in *.
  assert (Hd : forall x, In x (map snd p) -> 0 <= x).
  { intros x Hx. apply in_map_iff in Hx. destruct Hx as [[k v] [<- Hin]].
    apply (pareto_In sort_values df k v Hsv) in Hin.
    apply pareto_sums_In in Hin. destruct Hin as [_ ->].
    now apply group_sum_nonneg. }
  split.
  - unfold cumulative_pct, Series.cumsum.
    now rewrite length_map, cumsum_from_length, length_map.
  - unfold cumulative_pct. fold T. rewrite Forall_forall. intros x Hx.
    apply in_map_iff in Hx. destruct Hx as [c [<- Hc]].
    rewrite pct_finite by lia. eexists. split; [reflexivity |].
    unfold Series.cumsum in Hc.
    destruct (cumsum_from_sorted 0 (map snd p) Hd) as [_ Hlow].
    pose proof (cumsum_from_le_total 0 (map snd p) Hd) as Hhigh.
    rewrite Forall_forall in Hlow, Hhigh.
    specialize (Hlow c Hc). specialize (Hhigh c Hc). cbn [Z.add] in Hhigh.
    fold T in Hhigh. split.
    + apply (Qle_trans _ (Qred (Qred (inject_Z 0 / inject_Z T) * 100))).
      * rewrite (pct_zero T). apply Qle_refl.
      * now apply pct_mono.
    + apply (Qle_trans _ (Qred (Qred (inject_Z T / inject_Z T) * 100))).
      * now apply pct_mono.
      * rewrite (pct_total T) by lia. apply Qle_refl.
Qed.

Lemma pareto_percentages_in_range_witness :
  sorts_descending stable_sort_values /\
  0 < Series.sum (map snd (pareto stable_sort_values Scenario.three_reasons)) /\
  List.length (cumulative_pct (pareto stable_sort_values Scenario.three_reasons))
  = 3%nat.
Proof.
  split; [exact stable_sort_values_sorts |].
  split; [reflexivity |].
  exact (proj1 (pareto_percentages_in_range stable_sort_values Scenario.three_reasons
                  stable_sort_values_sorts (proj1 three_reasons_invariants)
                  eq_refl)).
Defined.

End ParetoMore.

(** ** Loading: extensions, the default dataset, the sidebar *)

Section LoadingMore.

Import Loader Sidebar.

Context {Frame : Type} `{Pandas Frame}.







(** X14. An uploaded file that parses, has every required column and
    whose dates convert is adopted: the run logs the read, the date
    conversion and the success message, in this order, and goes on with the
    converted frame under the caption made of the file name.  Whether the
    default dataset exists plays no part. *)
Theorem accepted_upload_is_adopted (s : Session) (f : UploadedFile)
    (df df' : Frame) (disk : option string) :
  parsed f = Some (inr df) ->
  incl required_columns (columns df) ->
  to_datetime_date df = inr df' ->
  (exists read,
      (read = ReadCsv \/ read = ReadExcel) /\
      load_stage (Some f) disk
      = ([read; ToDatetime; SidebarSuccess loaded_message],
         Returned (df', ("📂 " ++ name f)%string)))
  /\ active (rerun s (Some f) disk) = Some df'.
Proof.
  intros Hp Hincl Hconv. apply missing_nil_iff in Hincl.
  destruct (load_uploaded_file_parsed f df Hp) as [read [Hread Heq]].
  assert (Hstage : load_stage (Some f) disk
                   = ([read; ToDatetime; SidebarSuccess loaded_message],
                      Returned (df', ("📂 " ++ name f)%string))).
  { unfold load_stage. rewrite Heq, (check_and_convert_complete df Hincl), Hconv.
    reflexivity. }
  split.
  - exists read. split; [exact Hread | exact Hstage].
  - unfold rerun, active_table. cbn [active]. now rewrite Hstage.
Qed.

(** X15. The default loader, case by case: a missing [oee_data.csv] stops
    the run with the message asking for an upload; a file that does not
    parse, or whose dates do not convert, leaves the loader as an exception
    (only the missing file is caught); otherwise the frame is read, its
    dates are converted and it is returned.  A returned frame has always
    been through the date conversion, and the columns are never checked:
    no missing-columns message can come from here. *)
Theorem default_loader_outcomes (disk : option string) :
  load_default_data None = ([ReadCsv; StError default_missing_message], Stopped)
  /\ (forall df df',
        read_default disk = inr df -> to_datetime_date df = inr df' ->
        load_default_data disk = ([ReadCsv; ToDatetime], Returned df'))
  /\ (forall df what,
        read_default disk = inr df -> to_datetime_date df = inl (ValueError what) ->
        load_default_data disk = ([ReadCsv; ToDatetime], Raised (ValueError what)))
  /\ (forall what,
        read_default disk = inl (ValueError what) ->
        load_default_data disk = ([ReadCsv], Raised (ValueError what)))
  /\ (forall df',
        snd (load_default_data disk) = Returned df' ->
        exists df, read_default disk = inr df /\ to_datetime_date df = inr df')
  /\ (forall message, ~ In (SidebarError message) (fst (load_default_data disk))).
Proof.
  split; [reflexivity |].
  unfold load_default_data, bind, call. cbn [fst snd].
  split; [| split; [| split; [| split]]].
  - intros df df' -> ->. reflexivity.
  - intros df what -> ->. reflexivity.
  - intros what ->. reflexivity.
  - intros df'. destruct (read_default disk) as [[| what] | df]; cbn [fst snd app];
      try discriminate.
    destruct (to_datetime_date df) as [[| what] | df''] eqn:Hconv; cbn [fst snd app];
      try discriminate.
    intros [= <-]. eauto.
  - intros message. destruct (read_default disk) as [[| what] | df]; cbn [fst snd app].
    + cbn. intuition discriminate.
    + cbn. intuition discriminate.
    + destruct (to_datetime_date df) as [[| what] | df'']; cbn; intuition discriminate.
Qed.

Lemma bind_raises {A B : Type} (m : Run A) (k : A -> Run B) :
  (forall a b, snd (k a) <> Returned b) -> forall b, snd (bind m k) <> Returned b.
Proof.
  intros Hk b. unfold bind. destruct (snd m) as [a | e |]; cbn [snd];
    [apply Hk | discriminate | discriminate].
Qed.

(** X16. Without [oee_data.csv] on disk no run gets past the sidebar,
    whatever the access code and the uploaded file: with no upload the
    default loader stops the run, and with an upload, even a good one, the
    template for the download button is read from the missing file outside
    any [try]. *)
Theorem no_default_file_no_dashboard (entered_password : string)
    (widget : option UploadedFile) :
  (forall r, snd (sidebar entered_password widget None) <> Returned r)
  /\ (forall f df df',
        entered_password = UPLOAD_PASSWORD -> widget = Some f ->
        parsed f = Some (inr df) ->
        incl required_columns (columns df) ->
        to_datetime_date df = inr df' ->
        snd (sidebar entered_password widget None) = Raised FileNotFoundError).
Proof.
  split.
  - intros r. unfold sidebar. cbn [snd]. apply bind_raises.
    intros a b. unfold template_download, bind, call. cbn. discriminate.
  - intros f df df' -> -> Hp Hincl Hconv. apply missing_nil_iff in Hincl.
    destruct (load_uploaded_file_parsed f df Hp) as [read [_ Heq]].
    unfold sidebar, upload_access. rewrite String.eqb_refl. cbn [snd].
    unfold load_stage. rewrite Heq, (check_and_convert_complete df Hincl), Hconv.
    reflexivity.
Qed.

(** X17. The upload control is behind the access code: a file reaches the
    loader only when the entered code is exactly the pass code, and with
    any other entry the run is the run without an upload, whatever file the
    control holds.  The expander shows the wrong-code message for a wrong
    entry that is not empty, and for nothing else. *)
Theorem upload_needs_access_code (entered_password : string)
    (widget : option UploadedFile) (disk : option string) :
  (forall f, snd (upload_access entered_password widget) = Some f <->
             entered_password = UPLOAD_PASSWORD /\ widget = Some f)
  /\ (entered_password <> UPLOAD_PASSWORD ->
      sidebar entered_password widget disk = sidebar entered_password None disk)
  /\ (In (FromLoader (StError "❌ Incorrect access code"))
         (fst (upload_access entered_password widget))
      <-> entered_password <> UPLOAD_PASSWORD /\ entered_password <> ""%string).
Proof.
  unfold sidebar, upload_access.
  destruct (String.eqb_spec entered_password UPLOAD_PASSWORD) as [-> | Hne].
  - cbn [fst snd]. split; [| split].
    + intros f. split; [intros ->; auto | intros [_ ->]; reflexivity].
    + intros Habs. now destruct Habs.
    + split; [| intros [Habs _]; now destruct Habs].
      cbn [In]. intuition discriminate.
  - destruct (String.eqb_spec entered_password "") as [-> | Hne'];
      cbn [negb fst snd]; (split; [| split]).
    + intros f. split; [discriminate | intros [Habs _]; contradiction].
    + reflexivity.
    + split; [intros [] | intros [_ Habs]; now destruct Habs].
    + intros f. split; [discriminate | intros [Habs _]; contradiction].
    + reflexivity.
    + split; [intros _; auto | intros _; cbn [In]; now left].
Qed.

End LoadingMore.

Section LoadingRuns.

Import Loader Sidebar.

Lemma good_file_columns :
  incl required_columns (columns Scenario.june).
Proof.
  intros c Hc. cbn in Hc. cbn.
  repeat (destruct Hc as [<- | Hc]; [auto 20 |]). destruct Hc.
Qed.

Lemma accepted_upload_is_adopted_witness :
  parsed Scenario.good_file = Some (inr Scenario.june) /\
  incl required_columns (columns Scenario.june) /\
  to_datetime_date Scenario.june = inr Scenario.june /\
  active (rerun Scenario.showing_june (Some Scenario.good_file) None)
  = Some Scenario.june.
Proof.
  split; [reflexivity |]. split; [exact good_file_columns |].
  split; [reflexivity |].
  exact (proj2 (accepted_upload_is_adopted Scenario.showing_june Scenario.good_file
                  Scenario.june Scenario.june None eq_refl good_file_columns eq_refl)).
Defined.

End LoadingRuns.
